(** * Roman numeral converter: a shallow embedding of [converter.c]

    The development follows the C source function by function:
    [roman_value], [roman_converter], [int_converter], [validate_roman]
    with its three helpers, [regex_roman], the input guard
    [validate_input], and the interactive part, [roman_to_int],
    [int_to_roman] and [main], over an explicit standard input and
    output.  C [int] values are kept in [Z]: on the strings the
    program reads, which are shorter than 20 characters, every quantity
    it computes stays far inside the 32-bit range (see
    [roman_converter_loop_bound]), so the C arithmetic is the one written
    here. *)

From Stdlib Require Import ZArith Bool Ascii String DecimalString List Lia.
Import ListNotations.

Local Open Scope Z_scope.

(** ** C strings *)

(** A [char *] argument is modelled by the list of bytes it points to.
    Reading [roman[i]] yields the byte at index [i]; the terminating NUL is
    what one reads at the end of the list. *)

Definition NUL : ascii := Ascii.zero.

Definition is_nul (c : ascii) : bool := Ascii.eqb c NUL.

Definition char_at (roman : list ascii) (i : nat) : ascii := nth i roman NUL.

(** [strlen]: the index of the first NUL. *)
Fixpoint strlen (roman : list ascii) : nat :=
  match roman with
  | [] => 0%nat
  | c :: rest => if is_nul c then 0%nat else S (strlen rest)
  end.

(** The characters of the C string held in a buffer. *)
Definition c_str (roman : list ascii) : list ascii := firstn (strlen roman) roman.

(** String literals of the source. *)
Definition lit (s : string) : list ascii := list_ascii_of_string s.

(** ** Constants of the source *)

Definition MAX_ROMAN_LENGTH : Z := 20.
Definition ROMAN_MAX : Z := 3999.
Definition ROMAN_MIN : Z := 1.

Definition EXIT_PROGRAM : Z := -1.
Definition EXIT_OK : Z := 0.
Definition EXIT_EMPTY_ERR : Z := 2.
Definition EXIT_INVALID_INPUT : Z := 4.

(** ** [roman_value] *)

Definition roman_value (c : ascii) : Z :=
  if Ascii.eqb c "I" then 1
  else if Ascii.eqb c "V" then 5
  else if Ascii.eqb c "X" then 10
  else if Ascii.eqb c "L" then 50
  else if Ascii.eqb c "C" then 100
  else if Ascii.eqb c "D" then 500
  else if Ascii.eqb c "M" then 1000
  else 0.

(** ** [roman_converter] *)

(** One iteration of the [for] loop at index [i]. *)
Definition roman_converter_body (roman : list ascii) (i : nat) (total : Z) : Z :=
  let current_value := roman_value (char_at roman i) in
  let next_value :=
    if is_nul (char_at roman (i + 1)) then 0
    else roman_value (char_at roman (i + 1)) in
  if current_value <? next_value then total - current_value
  else total + current_value.

(** [for (i = 0; roman[i]; i++)] runs its body for [i = 0 .. strlen roman - 1];
    [n] is the number of iterations still to run. *)
Fixpoint roman_converter_loop (n : nat) (roman : list ascii) (i : nat) (total : Z) : Z :=
  match n with
  | O => total
  | S n' => roman_converter_loop n' roman (S i) (roman_converter_body roman i total)
  end.

Definition roman_converter (roman : list ascii) : Z :=
  roman_converter_loop (strlen roman) roman 0 0.

(** ** [int_converter] *)

Definition values : list Z :=
  [1000; 900; 500; 400; 100; 90; 50; 40; 10; 9; 5; 4; 1].

Definition symbols : list (list ascii) :=
  map lit ["M"; "CM"; "D"; "CD"; "C"; "XC"; "L"; "XL"; "X"; "IX"; "V"; "IV"; "I"]%string.

(** [while (num >= values[i]) { strcat(roman, symbols[i]); num -= values[i]; }]
    The loop is given [fuel] iterations and answers [None] when they do
    not suffice. *)
Fixpoint int_converter_while (fuel : nat) (v : Z) (sym : list ascii)
    (num : Z) (roman : list ascii) : option (Z * list ascii) :=
  if num >=? v then
    match fuel with
    | O => None
    | S fuel' => int_converter_while fuel' v sym (num - v) (roman ++ sym)
    end
  else Some (num, roman).

(** [for (i = 0; num > 0 && i < 13; i++)]; [n] counts the table entries
    still to visit. *)
Fixpoint int_converter_for (n : nat) (fuel : nat) (i : nat)
    (num : Z) (roman : list ascii) : option (Z * list ascii) :=
  match n with
  | O => Some (num, roman)
  | S n' =>
      if num >? 0 then
        match int_converter_while fuel (nth i values 0) (nth i symbols []) num roman with
        | Some (num', roman') => int_converter_for n' fuel (S i) num' roman'
        | None => None
        end
      else Some (num, roman)
  end.

(** The buffer obtained from [malloc] is taken to have been allocated; the
    result is the string built in it.  [None] only signals exhausted fuel,
    which [int_converter_total] rules out.  The string is not cut at the 20
    bytes of the buffer: for an argument whose numeral does not fit, where
    the source writes past the buffer, the result is the string the loop
    builds. *)
Definition int_converter (num : Z) : option (list ascii) :=
  match int_converter_for (List.length values) (S (Z.to_nat num)) 0 num [] with
  | Some (_, roman) => Some roman
  | None => None
  end.

(** ** Helpers of [validate_roman] *)

Definition is_valid_subtractive (prev curr : Z) : bool :=
  ((prev =? 1) && ((curr =? 5) || (curr =? 10))) ||
  ((prev =? 10) && ((curr =? 50) || (curr =? 100))) ||
  ((prev =? 100) && ((curr =? 500) || (curr =? 1000))).

Definition can_subsequently_repeat (value repeat_count : Z) : bool :=
  if ((value =? 1) || (value =? 10) || (value =? 100) || (value =? 1000))
       && (repeat_count >? 3)
  then false
  else true.

(** The local variables of [validate_roman]. *)
Record vstate : Type := mk_vstate {
  repeat : Z;
  max : Z;
  last_subtractive_value : Z;
  last_subtractive : bool;
  v_repeat : bool;
  l_repeat : bool;
  d_repeat : bool
}.

Definition set_v_repeat (st : vstate) (b : bool) : vstate :=
  mk_vstate (repeat st) (max st) (last_subtractive_value st) (last_subtractive st)
            b (l_repeat st) (d_repeat st).
Definition set_l_repeat (st : vstate) (b : bool) : vstate :=
  mk_vstate (repeat st) (max st) (last_subtractive_value st) (last_subtractive st)
            (v_repeat st) b (d_repeat st).
Definition set_d_repeat (st : vstate) (b : bool) : vstate :=
  mk_vstate (repeat st) (max st) (last_subtractive_value st) (last_subtractive st)
            (v_repeat st) (l_repeat st) b.
Definition set_repeat (st : vstate) (r : Z) : vstate :=
  mk_vstate r (max st) (last_subtractive_value st) (last_subtractive st)
            (v_repeat st) (l_repeat st) (d_repeat st).
Definition set_subtractive (st : vstate) (lsv mx : Z) (ls : bool) : vstate :=
  mk_vstate (repeat st) mx lsv ls (v_repeat st) (l_repeat st) (d_repeat st).

(** [cannot_repeat] writes through its three pointer arguments: it returns
    its result together with the updated flags. *)
Definition cannot_repeat (value : Z) (st : vstate) : bool * vstate :=
  if value =? 5 then
    if v_repeat st then (true, st) else (false, set_v_repeat st true)
  else if value =? 50 then
    if l_repeat st then (true, st) else (false, set_l_repeat st true)
  else if value =? 500 then
    if d_repeat st then (true, st) else (false, set_d_repeat st true)
  else (false, st).

(** ** [validate_roman] *)

Definition init_vstate : vstate :=
  mk_vstate 1 1000 0 false false false false.

(** One iteration of the scan at index [i]: [None] is [return false],
    [Some st'] carries the locals into the next iteration. *)
Definition validate_body (roman : list ascii) (i : nat) (st : vstate) : option vstate :=
  let current_value := roman_value (char_at roman i) in
  if current_value =? 0 then None
  else
    let (rejected, st1) := cannot_repeat current_value st in
    if rejected then None
    else if Nat.eqb i 0 then Some st1
    else
      let prev_value := roman_value (char_at roman (i - 1)) in
      let after_repeat :=
        if current_value =? prev_value then
          let st2 := set_repeat st1 (repeat st1 + 1) in
          if negb (can_subsequently_repeat current_value (repeat st2)) then None
          else Some st2
        else Some (set_repeat st1 1) in
      match after_repeat with
      | None => None
      | Some st2 =>
          let after_order :=
            if prev_value <? current_value then
              if negb (is_valid_subtractive prev_value current_value)
                 || last_subtractive st2
                 || (current_value >? max st2)
                 || (prev_value =? last_subtractive_value st2)
              then None
              else Some (set_subtractive st2 prev_value current_value true)
            else
              if (prev_value >? max st2)
                 || (current_value =? last_subtractive_value st2)
              then None
              else Some (set_subtractive st2 (last_subtractive_value st2) prev_value false) in
          match after_order with
          | None => None
          | Some st3 =>
              if Nat.ltb 1 i
                 && (roman_value (char_at roman (i - 2)) <? current_value)
                 && (prev_value <? current_value)
              then None
              else if last_subtractive st3
                      && negb (is_nul (char_at roman (i + 1)))
                      && (roman_value (char_at roman (i + 1)) >? last_subtractive_value st3)
              then None
              else Some st3
          end
      end.

(** [for (i = 0; roman[i]; i++)]: the test [roman[i]] first fails at
    [i = strlen roman] (see [char_at_strlen], [char_at_before_strlen]), so
    the body runs [strlen roman] times; [n] iterations remain; falling out
    of the loop is [return true]. *)
Fixpoint validate_loop (n : nat) (roman : list ascii) (i : nat) (st : vstate) : bool :=
  match n with
  | O => true
  | S n' =>
      match validate_body roman i st with
      | None => false
      | Some st' => validate_loop n' roman (S i) st'
      end
  end.

Definition validate_roman (roman : list ascii) : bool :=
  validate_loop (strlen roman) roman 0 init_vstate.

(** ** [regex_roman] *)

(** The extended regular expressions the pattern of the source is built
    from.  [Void] matches nothing and only arises as a neutral element. *)
Inductive regex : Type :=
  | Void : regex
  | Eps : regex
  | Chr : ascii -> regex
  | Cat : regex -> regex -> regex
  | Alt : regex -> regex -> regex.

(** [r?] *)
Definition opt (r : regex) : regex := Alt Eps r.

(** [r{0,n}] *)
Fixpoint upto (n : nat) (r : regex) : regex :=
  match n with
  | O => Eps
  | S n' => opt (Cat r (upto n' r))
  end.

(** A literal word such as [CM]. *)
Fixpoint word (w : list ascii) : regex :=
  match w with
  | [] => Eps
  | c :: w' => Cat (Chr c) (word w')
  end.

(** One decimal position of the grammar: [(ab|ac|c?a{0,3})] written with
    the unit [one], the five [five] and the ten [ten] of that position. *)
Definition digit_group (one five ten : ascii) : regex :=
  Alt (word [one; ten])
      (Alt (word [one; five])
           (Cat (opt (Chr five)) (upto 3 (Chr one)))).

(** [M{0,3}(CM|CD|D?C{0,3})(XC|XL|L?X{0,3})(IX|IV|V?I{0,3})]; the anchors
    [^] and [$] are rendered by [regexec] below. *)
Definition pattern : regex :=
  Cat (upto 3 (Chr "M"))
      (Cat (digit_group "C" "D" "M")
           (Cat (digit_group "X" "L" "C")
                (digit_group "I" "V" "X"))).

(** What a regular expression matches. *)
Inductive matches : regex -> list ascii -> Prop :=
  | m_eps : matches Eps []
  | m_chr : forall c, matches (Chr c) [c]
  | m_cat : forall r1 r2 s1 s2,
      matches r1 s1 -> matches r2 s2 -> matches (Cat r1 r2) (s1 ++ s2)
  | m_alt_l : forall r1 r2 s, matches r1 s -> matches (Alt r1 r2) s
  | m_alt_r : forall r1 r2 s, matches r2 s -> matches (Alt r1 r2) s.

(** A backtracking matcher: [accept r s k] holds when [r] matches a prefix
    of [s] whose remainder satisfies the continuation [k]. *)
Fixpoint accept (r : regex) (s : list ascii) (k : list ascii -> bool) : bool :=
  match r with
  | Void => false
  | Eps => k s
  | Chr c =>
      match s with
      | c' :: s' => Ascii.eqb c c' && k s'
      | [] => false
      end
  | Cat r1 r2 => accept r1 s (fun s' => accept r2 s' k)
  | Alt r1 r2 => accept r1 s k || accept r2 s k
  end.

Definition at_end (s : list ascii) : bool :=
  match s with [] => true | _ :: _ => false end.

(** [regexec] on an anchored pattern: the match starts at the first
    character ([^]) and must consume the whole string ([$]). *)
Definition regexec (r : regex) (s : list ascii) : bool := accept r s at_end.

(** [regcomp] succeeds on the fixed pattern, so the result is that of
    [regexec] on the C string. *)
Definition regex_roman (roman : list ascii) : bool :=
  regexec pattern (c_str roman).

(** ** [validate_input] *)

(** [toupper] in the C locale. *)
Definition toupper (c : ascii) : ascii :=
  let n := nat_of_ascii c in
  if Nat.leb 97 n && Nat.leb n 122 then ascii_of_nat (n - 32) else c.

Definition newline : ascii := "010"%char.

(** [strcspn(input, "\n")]: the index of the first newline of the C string,
    or its length when there is none. *)
Fixpoint strcspn_newline (input : list ascii) : nat :=
  match input with
  | [] => 0%nat
  | c :: rest =>
      if is_nul c || Ascii.eqb c newline then 0%nat
      else S (strcspn_newline rest)
  end.

(** [strchr(input, '\n') == NULL]; the draining of [stdin] that
    [input_overflow_check] then performs does not touch the buffer. *)
Definition input_overflow_check (input : list ascii) : bool :=
  negb (Ascii.eqb (char_at input (strcspn_newline input)) newline).

(** [input[k] = '\0'] *)
Fixpoint store_nul (input : list ascii) (k : nat) : list ascii :=
  match input, k with
  | [], _ => []
  | _ :: rest, O => NUL :: rest
  | c :: rest, S k' => c :: store_nul rest k'
  end.

(** [validate_input] returns its status and leaves the buffer modified. *)
Definition validate_input (input : list ascii) : Z * list ascii :=
  if input_overflow_check input then (EXIT_INVALID_INPUT, input)
  else
    let input1 := store_nul input (strcspn_newline input) in
    if is_nul (char_at input1 0) then (EXIT_EMPTY_ERR, input1)
    else if Ascii.eqb (toupper (char_at input1 0)) "Q" && is_nul (char_at input1 1)
    then (EXIT_PROGRAM, input1)
    else (EXIT_OK, input1).

(** ** Enumerations used by the proofs *)

Definition alphabet : list ascii := lit "IVXLCDM".

(** The one-symbol extensions of the strings of [L] that the scan accepts. *)
Definition extend (L : list (list ascii)) : list (list ascii) :=
  flat_map (fun s => filter validate_roman (map (fun c => s ++ [c]) alphabet)) L.

(** The accepted strings of length [k]. *)
Fixpoint level (k : nat) : list (list ascii) :=
  match k with
  | O => [[]]
  | S k' => extend (level k')
  end.

(** The levels [L], [extend L], ... in turn, [k] of them. *)
Fixpoint grow (k : nat) (L : list (list ascii)) : list (list (list ascii)) :=
  match k with
  | O => []
  | S k' => L :: grow k' (extend L)
  end.

(** Every string of fewer than 16 symbols that the scan accepts. *)
Definition accepted : list (list ascii) := concat (grow 16 [[]]).

(** The words of a regular expression. *)
Fixpoint words (r : regex) : list (list ascii) :=
  match r with
  | Void => []
  | Eps => [[]]
  | Chr c => [[c]]
  | Cat r1 r2 => flat_map (fun w1 => map (app w1) (words r2)) (words r1)
  | Alt r1 r2 => words r1 ++ words r2
  end.

Definition list_ascii_eqb (a b : list ascii) : bool :=
  if list_eq_dec ascii_dec a b then true else false.

(** [s] is the numeral [int_converter] builds for the value
    [roman_converter] reads from it, and that value is in range. *)
Definition canonical (s : list ascii) : bool :=
  let n := roman_converter s in
  (ROMAN_MIN <=? n) && (n <=? ROMAN_MAX) &&
  match int_converter n with
  | Some r => list_ascii_eqb r s
  | None => false
  end.

(** The integers 1 .. 3999. *)
Definition range : list Z := map Z.of_nat (seq 1 3999).

(** [n] is converted to a numeral of at most 15 symbols that the scan
    accepts and the evaluator reads back as [n]. *)
Definition round_trip (n : Z) : bool :=
  match int_converter n with
  | Some r =>
      validate_roman r && (roman_converter r =? n) && Nat.leb (List.length r) 15
  | None => false
  end.

(** The flag of [validate_roman] that records a symbol of value [v]. *)
Definition seen (v : Z) (st : vstate) : bool :=
  if v =? 5 then v_repeat st
  else if v =? 50 then l_repeat st
  else if v =? 500 then d_repeat st
  else false.

(** The values of V, L and D. *)
Definition once_only (v : Z) : Prop := v = 5 \/ v = 50 \/ v = 500.

(** Buffers without an embedded NUL: the list is the C string itself. *)
Definition no_nul (s : list ascii) : Prop := Forall (fun c => c <> NUL) s.

(** One of the seven symbols. *)
Definition roman_symbol (c : ascii) : Prop := In c alphabet.

(** ** Standard input and output *)

Definition MAX_INT_LENGTH : Z := 10.
Definition MAIN_BUFFER_LENGTH : Z := 10.

Definition EXIT_INPUT_ERR : Z := 1.
Definition EXIT_MALLOC_ERR : Z := 3.
Definition EXIT_INVALID_NUMERAL : Z := 5.

(** What the program writes, one constructor per [printf] or [fprintf]
    site ([Out_menu] stands for the four lines of the menu). *)
Inductive event : Type :=
  | Out_menu
  | Out_prompt_roman
  | Out_prompt_int
  | Out_int (n : Z)
  | Out_roman (r : list ascii)
  | Err_input
  | Err_invalid_input
  | Err_invalid_option
  | Err_not_roman (roman : list ascii)
  | Err_out_of_range
  | Err_malloc.

(** The bytes still to be read from [stdin] (end of file at the end of the
    list) and what has been written so far. *)
Record world : Type := mk_world {
  stdin : list ascii;
  output : list event
}.

Definition emit (e : event) (w : world) : world :=
  mk_world (stdin w) (output w ++ [e]).

(** [fgets] copies at most [n] bytes, stopping after a newline. *)
Fixpoint fgets_read (n : nat) (s : list ascii) : list ascii * list ascii :=
  match n, s with
  | O, _ => ([], s)
  | S _, [] => ([], [])
  | S n', c :: rest =>
      if Ascii.eqb c newline then ([c], rest)
      else let (buf, rest') := fgets_read n' rest in (c :: buf, rest')
  end.

(** [fgets(buf, size, stdin)]: [None] is the [NULL] returned at end of
    file. *)
Definition fgets (size : Z) (w : world) : option (list ascii) * world :=
  match stdin w with
  | [] => (None, w)
  | _ :: _ =>
      let (buf, rest) := fgets_read (Z.to_nat size - 1) (stdin w) in
      (Some buf, mk_world rest (output w))
  end.

(** [for (int c; (c = getchar()) != '\n' && c != EOF; );] *)
Fixpoint drain_line (s : list ascii) : list ascii :=
  match s with
  | [] => []
  | c :: rest => if Ascii.eqb c newline then rest else drain_line rest
  end.

(** [validate_input] together with the reading that its call of
    [input_overflow_check] performs. *)
Definition validate_input_io (input : list ascii) (w : world)
    : Z * list ascii * world :=
  (validate_input input,
   if input_overflow_check input
   then mk_world (drain_line (stdin w)) (output w)
   else w).

(** [isalpha] in the C locale. *)
Definition isalpha (c : ascii) : bool :=
  let n := nat_of_ascii c in
  (Nat.leb 65 n && Nat.leb n 90) || (Nat.leb 97 n && Nat.leb n 122).

(** [buf[k] = c] *)
Fixpoint store (buf : list ascii) (k : nat) (c : ascii) : list ascii :=
  match buf, k with
  | [], _ => []
  | _ :: rest, O => c :: rest
  | b :: rest, S k' => b :: store rest k' c
  end.

(** The upper-casing loop of [roman_to_int]; [None] is its early return.
    The letters it stores are not NUL, so the loop runs once for every
    character of the string it started with; [n] iterations remain. *)
Fixpoint upper_loop (n : nat) (roman : list ascii) (i : nat) : option (list ascii) :=
  match n with
  | O => Some roman
  | S n' =>
      if negb (isalpha (char_at roman i)) then None
      else upper_loop n' (store roman i (toupper (char_at roman i))) (S i)
  end.

(** ** [roman_to_int] *)

(** [use_regex] is the global flag; the platform is one with [<regex.h>]. *)
Definition roman_to_int (use_regex : bool) (w0 : world) : Z * world :=
  let w1 := emit Out_prompt_roman w0 in
  match fgets MAX_ROMAN_LENGTH w1 with
  | (None, w2) => (EXIT_INPUT_ERR, emit Err_input w2)
  | (Some buf, w2) =>
      let '(validation_status, roman, w3) := validate_input_io buf w2 in
      if negb (validation_status =? EXIT_OK) then
        if validation_status =? EXIT_PROGRAM then (EXIT_PROGRAM, w3)
        else (validation_status, emit Err_invalid_input w3)
      else
        match upper_loop (strlen roman) roman 0 with
        | None => (EXIT_INVALID_INPUT, emit Err_invalid_input w3)
        | Some roman' =>
            let valid :=
              if use_regex then regex_roman roman' else validate_roman roman' in
            if negb valid
            then (EXIT_INVALID_NUMERAL, emit (Err_not_roman (c_str roman')) w3)
            else (EXIT_OK, emit (Out_int (roman_converter roman')) w3)
        end
  end.

(** ** [int_to_roman] *)

(** [isspace] and [isdigit] in the C locale. *)
Definition isspace (c : ascii) : bool :=
  let n := nat_of_ascii c in
  Nat.eqb n 32 || (Nat.leb 9 n && Nat.leb n 13).

Definition isdigit (c : ascii) : bool :=
  let n := nat_of_ascii c in
  Nat.leb 48 n && Nat.leb n 57.

Definition digit_value (c : ascii) : Z := Z.of_nat (nat_of_ascii c) - 48.

Fixpoint skip_spaces (s : list ascii) : nat :=
  match s with
  | c :: rest => if isspace c then S (skip_spaces rest) else O
  | [] => O
  end.

(** The value of the leading digits of [s], continuing [acc], and their
    number. *)
Fixpoint read_digits (s : list ascii) (acc : Z) : Z * nat :=
  match s with
  | c :: rest =>
      if isdigit c then
        let (v, k) := read_digits rest (10 * acc + digit_value c) in (v, S k)
      else (acc, O)
  | [] => (acc, O)
  end.

Definition LONG_MAX : Z := 2 ^ 63 - 1.
Definition LONG_MIN : Z := - 2 ^ 63.

(** The range of [int]. *)
Definition INT_MAX : Z := 2 ^ 31 - 1.
Definition INT_MIN : Z := - 2 ^ 31.

(** [strtol(nptr, &ptr, 10)] with [errno] cleared before: the value, the
    index [ptr] stops at, and whether [errno] was set (to [ERANGE]).
    Without any digit nothing is converted and [ptr] is [nptr]. *)
Definition strtol (nptr : list ascii) : Z * nat * bool :=
  let i := skip_spaces nptr in
  let after_space := skipn i nptr in
  let '(negative, j) :=
    match after_space with
    | c :: _ =>
        if Ascii.eqb c "-" then (true, 1%nat)
        else if Ascii.eqb c "+" then (false, 1%nat)
        else (false, O)
    | [] => (false, O)
    end in
  let (magnitude, k) := read_digits (skipn j after_space) 0 in
  match k with
  | O => (0, O, false)
  | S _ =>
      let v := if negative then - magnitude else magnitude in
      if v >? LONG_MAX then (LONG_MAX, (i + j + k)%nat, true)
      else if v <? LONG_MIN then (LONG_MIN, (i + j + k)%nat, true)
      else (v, (i + j + k)%nat, false)
  end.

(** The [NULL] branch of [int_converter] is the [None] of its model. *)
Definition int_to_roman (w0 : world) : Z * world :=
  let w1 := emit Out_prompt_int w0 in
  match fgets MAX_INT_LENGTH w1 with
  | (None, w2) => (EXIT_INPUT_ERR, emit Err_input w2)
  | (Some buf, w2) =>
      let '(validation_status, input, w3) := validate_input_io buf w2 in
      if negb (validation_status =? EXIT_OK) then
        if validation_status =? EXIT_PROGRAM then (EXIT_PROGRAM, w3)
        else (validation_status, emit Err_invalid_input w3)
      else
        let '(num, ptr, erange) := strtol input in
        if negb (is_nul (char_at input ptr)) || erange
        then (EXIT_INVALID_INPUT, emit Err_invalid_input w3)
        else if (num >? ROMAN_MAX) || (num <? ROMAN_MIN)
        then (EXIT_INVALID_NUMERAL, emit Err_out_of_range w3)
        else
          match int_converter num with
          | None => (EXIT_MALLOC_ERR, emit Err_malloc w3)
          | Some r => (EXIT_OK, emit (Out_roman r) w3)
          end
  end.

(** ** [main] *)

(** [strcmp(a, b) == 0] *)
Definition streq (a b : list ascii) : bool := list_ascii_eqb (c_str a) (c_str b).

(** [do { status = convert(); } while (!test_mode && status != EXIT_PROGRAM);]
    with [fuel] bounding the number of iterations. *)
Fixpoint submenu (fuel : nat) (convert : world -> Z * world) (test_mode : bool)
    (w : world) : option (Z * world) :=
  match fuel with
  | O => None
  | S fuel' =>
      let (status, w') := convert w in
      if negb test_mode && negb (status =? EXIT_PROGRAM)
      then submenu fuel' convert test_mode w'
      else Some (status, w')
  end.

(** The [while (1)] loop of [main]; [None] when [fuel] iterations do not
    bring it to a [return]. *)
Fixpoint main_loop (fuel : nat) (test_mode use_regex : bool) (w0 : world)
    : option (Z * world) :=
  match fuel with
  | O => None
  | S fuel' =>
      let w1 := if test_mode then w0 else emit Out_menu w0 in
      match fgets MAIN_BUFFER_LENGTH w1 with
      | (None, w2) => Some (EXIT_INPUT_ERR, emit Err_input w2)
      | (Some buf, w2) =>
          let '(validation_status, buffer, w3) := validate_input_io buf w2 in
          if negb (validation_status =? EXIT_OK) then
            if validation_status =? EXIT_PROGRAM then Some (EXIT_PROGRAM, w3)
            else Some (validation_status, emit Err_invalid_input w3)
          else if streq buffer (lit "1") then
            match submenu fuel' (roman_to_int use_regex) test_mode w3 with
            | None => None
            | Some (status, w4) =>
                if test_mode then Some (status, w4)
                else main_loop fuel' test_mode use_regex w4
            end
          else if streq buffer (lit "2") then
            match submenu fuel' int_to_roman test_mode w3 with
            | None => None
            | Some (status, w4) =>
                if test_mode then Some (status, w4)
                else main_loop fuel' test_mode use_regex w4
            end
          else main_loop fuel' test_mode use_regex (emit Err_invalid_option w3)
      end
  end.

(** [argv[0]] is skipped; [-test] and [-regex] may come in any order. *)
Definition main (fuel : nat) (argv : list (list ascii)) (w : world)
    : option (Z * world) :=
  let test_mode := existsb (streq (lit "-test")) (tl argv) in
  let use_regex := existsb (streq (lit "-regex")) (tl argv) in
  main_loop fuel test_mode use_regex w.

(** The decimal digits of a natural number, as typed on a line. *)
Definition decimal (n : Z) : list ascii :=
  list_ascii_of_string (NilZero.string_of_uint (N.to_uint (Z.to_N n))).

(** The value of the symbol before index [i] when the evaluator has
    subtracted it, and 0 otherwise. *)
Definition pending (roman : list ascii) (i : nat) : Z :=
  match i with
  | O => 0
  | S j =>
      if roman_value (char_at roman j) <? roman_value (char_at roman (S j))
      then roman_value (char_at roman j)
      else 0
  end.

(** Four equal characters in a row somewhere in [s]. *)
Fixpoint run4 (s : list ascii) : bool :=
  match s with
  | [] => false
  | a :: rest =>
      match rest with
      | b :: c :: d :: _ =>
          (Ascii.eqb a b && Ascii.eqb b c && Ascii.eqb c d) || run4 rest
      | _ => false
      end
  end.

(** [int_converter] builds a numeral without such a run. *)
Definition no_run4 (n : Z) : bool :=
  match int_converter n with
  | Some r => negb (run4 r)
  | None => false
  end.

(** Below 1000 a numeral has at most 12 symbols, and 12 only for 888. *)
Definition short_numeral (n : Z) : bool :=
  match int_converter n with
  | Some r =>
      Nat.leb (List.length r) 12 && (Nat.ltb (List.length r) 12 || (n =? 888))
  | None => false
  end.

(** The text of a line: neither NUL nor newline occurs in it. *)
Definition line_text (l : list ascii) : Prop :=
  Forall (fun c => c <> NUL /\ c <> newline) l.

(** [strtol] reads the decimal digits of [n] back as [n], stopping at the
    terminator, and these digits are a short line of text. *)
Definition decimal_ok (n : Z) : bool :=
  let d := decimal n in
  forallb isdigit d && Nat.leb 1 (List.length d) && Nat.leb (List.length d) 8 &&
  match strtol (d ++ [NUL]) with
  | (v, ptr, erange) => (v =? n) && Nat.eqb ptr (List.length d) && negb erange
  end.

(** * Properties *)

(** Case analysis on the tests of a loop body found in a hypothesis. *)
Ltac break_ifs :=
  repeat match goal with
         | H : context [if ?b then _ else _] |- _ => destruct b eqn:?
         | H : context [match ?x with Some _ => _ | None => _ end] |- _ => destruct x eqn:?
         | H : context [let (_, _) := ?x in _] |- _ => destruct x eqn:?
         | H : Some _ = None |- _ => discriminate H
         | H : None = Some _ |- _ => discriminate H
         | H : true = false |- _ => discriminate H
         | H : false = true |- _ => discriminate H
         end.

(** Membership of a literal in the alphabet, symbol by symbol. *)
Ltac symbols :=
  repeat (apply Forall_cons;
          [unfold roman_symbol; cbn; repeat ((left; reflexivity) || right)|]);
  apply Forall_nil.

(** ** C strings *)

Lemma is_nul_true c : is_nul c = true <-> c = NUL.
Proof. unfold is_nul. apply Ascii.eqb_eq. Qed.

Lemma is_nul_false c : is_nul c = false <-> c <> NUL.
Proof. unfold is_nul. apply Ascii.eqb_neq. Qed.

Lemma strlen_le_length s : (strlen s <= List.length s)%nat.
Proof.
  induction s as [|c s IH]; simpl; [lia|].
  destruct (is_nul c); lia.
Qed.

Lemma char_at_strlen s : char_at s (strlen s) = NUL.
Proof.
  unfold char_at. induction s as [|c s IH]; simpl; [reflexivity|].
  destruct (is_nul c) eqn:E; [now apply is_nul_true | exact IH].
Qed.

Lemma char_at_before_strlen s j : (j < strlen s)%nat -> char_at s j <> NUL.
Proof.
  unfold char_at. revert j. induction s as [|c s IH]; simpl; intros j Hj; [lia|].
  destruct (is_nul c) eqn:E; [lia|].
  destruct j as [|j]; [now apply is_nul_false | apply IH; lia].
Qed.

Lemma strlen_no_nul s : no_nul s -> strlen s = List.length s.
Proof.
  induction 1 as [|c s Hc _ IH]; simpl; [reflexivity|].
  apply is_nul_false in Hc. now rewrite Hc, IH.
Qed.

Lemma c_str_no_nul s : no_nul (c_str s).
Proof.
  unfold c_str, no_nul. induction s as [|c s IH]; simpl; [constructor|].
  destruct (is_nul c) eqn:E; simpl; constructor; [now apply is_nul_false | exact IH].
Qed.

Lemma length_c_str s : List.length (c_str s) = strlen s.
Proof.
  unfold c_str. rewrite length_firstn. pose proof (strlen_le_length s). lia.
Qed.

Lemma strlen_c_str s : strlen (c_str s) = strlen s.
Proof. rewrite (strlen_no_nul _ (c_str_no_nul s)). apply length_c_str. Qed.

Lemma c_str_of_no_nul s : no_nul s -> c_str s = s.
Proof.
  intros H. unfold c_str. rewrite (strlen_no_nul _ H). apply firstn_all.
Qed.

Lemma char_at_c_str s j : (j <= strlen s)%nat -> char_at (c_str s) j = char_at s j.
Proof.
  intros Hj. unfold char_at, c_str. rewrite nth_firstn.
  destruct (Nat.ltb_spec j (strlen s)) as [Hlt|Hge]; [reflexivity|].
  assert (j = strlen s) as -> by lia. symmetry. apply char_at_strlen.
Qed.

Lemma roman_symbol_no_nul s : Forall roman_symbol s -> no_nul s.
Proof.
  apply Forall_impl. intros c Hc ->. unfold roman_symbol, alphabet in Hc.
  simpl in Hc. intuition discriminate.
Qed.

(** ** The scan reads only the string *)

(** An iteration at index [i] reads [roman] at [i - 2 .. i + 1] only. *)
Lemma validate_body_ext r1 r2 i st :
  (forall j, (j <= i + 1)%nat -> char_at r1 j = char_at r2 j) ->
  validate_body r1 i st = validate_body r2 i st.
Proof.
  intros H. unfold validate_body.
  rewrite (H i), (H (i - 1)%nat), (H (i - 2)%nat), (H (i + 1)%nat) by lia.
  reflexivity.
Qed.

Lemma validate_loop_ext r1 r2 n : forall i st,
  (forall j, (j <= i + n)%nat -> char_at r1 j = char_at r2 j) ->
  validate_loop n r1 i st = validate_loop n r2 i st.
Proof.
  induction n as [|n IH]; intros i st H; simpl; [reflexivity|].
  rewrite (validate_body_ext r1 r2) by (intros j Hj; apply H; lia).
  destruct (validate_body r2 i st); [|reflexivity].
  apply IH. intros j Hj. apply H. lia.
Qed.

Lemma validate_roman_c_str s : validate_roman (c_str s) = validate_roman s.
Proof.
  unfold validate_roman. rewrite strlen_c_str.
  apply validate_loop_ext. intros j Hj. apply char_at_c_str. lia.
Qed.

Lemma roman_converter_body_ext r1 r2 i total :
  (forall j, (j <= i + 1)%nat -> char_at r1 j = char_at r2 j) ->
  roman_converter_body r1 i total = roman_converter_body r2 i total.
Proof.
  intros H. unfold roman_converter_body.
  rewrite (H i), (H (i + 1)%nat) by lia. reflexivity.
Qed.

Lemma roman_converter_loop_ext r1 r2 n : forall i total,
  (forall j, (j <= i + n)%nat -> char_at r1 j = char_at r2 j) ->
  roman_converter_loop n r1 i total = roman_converter_loop n r2 i total.
Proof.
  induction n as [|n IH]; intros i total H; simpl; [reflexivity|].
  rewrite (roman_converter_body_ext r1 r2) by (intros j Hj; apply H; lia).
  apply IH. intros j Hj. apply H. lia.
Qed.

Lemma roman_converter_c_str s : roman_converter (c_str s) = roman_converter s.
Proof.
  unfold roman_converter. rewrite strlen_c_str.
  apply roman_converter_loop_ext. intros j Hj. apply char_at_c_str. lia.
Qed.

Lemma regex_roman_c_str s : regex_roman (c_str s) = regex_roman s.
Proof.
  unfold regex_roman. now rewrite (c_str_of_no_nul _ (c_str_no_nul s)).
Qed.

(** ** Acceptance is closed under prefixes *)

(** Dropping what follows index [i] can only remove the look-ahead
    rejection. *)
Lemma validate_body_cut r1 r2 i st st' :
  (forall j, (j <= i)%nat -> char_at r1 j = char_at r2 j) ->
  char_at r2 (i + 1) = NUL ->
  validate_body r1 i st = Some st' ->
  validate_body r2 i st = Some st'.
Proof.
  intros H Hnul. unfold validate_body.
  rewrite (H i), (H (i - 1)%nat), (H (i - 2)%nat), Hnul by lia.
  replace (is_nul NUL) with true by reflexivity. cbn [negb].
  intros Hb. break_ifs; rewrite ?andb_false_r; cbn [andb]; assumption.
Qed.

(** Every iteration that lets the scan continue saw a Roman symbol. *)
Lemma validate_body_symbol roman i st st' :
  validate_body roman i st = Some st' -> roman_value (char_at roman i) <> 0.
Proof.
  unfold validate_body. intros H.
  destruct (roman_value (char_at roman i) =? 0) eqn:E; [discriminate|].
  now apply Z.eqb_neq.
Qed.

Lemma validate_loop_symbols roman n : forall i st,
  validate_loop n roman i st = true ->
  forall j, (i <= j < i + n)%nat -> roman_value (char_at roman j) <> 0.
Proof.
  induction n as [|n IH]; intros i st H j Hj; [lia|].
  simpl in H. destruct (validate_body roman i st) as [st'|] eqn:E; [|discriminate].
  destruct (Nat.eq_dec j i) as [->|Hne].
  - eapply validate_body_symbol; eassumption.
  - eapply IH; [eassumption | lia].
Qed.

Lemma validate_loop_prefix s c n : forall i st,
  (i + n = List.length s)%nat ->
  validate_loop (S n) (s ++ [c]) i st = true ->
  validate_loop n s i st = true.
Proof.
  induction n as [|n IH]; intros i st Hlen H; [reflexivity|].
  cbn [validate_loop] in H |- *.
  destruct (validate_body (s ++ [c]) i st) as [st1|] eqn:E; [|discriminate].
  assert (Hpre : forall j, (j < List.length s)%nat -> char_at (s ++ [c]) j = char_at s j).
  { intros j Hj. unfold char_at. now apply app_nth1. }
  assert (E' : validate_body s i st = Some st1).
  { destruct (Nat.eq_dec (i + 1) (List.length s)) as [Hlast|Hmid].
    - eapply validate_body_cut; [| |exact E].
      + intros j Hj. apply Hpre. lia.
      + unfold char_at. apply nth_overflow. lia.
    - rewrite <- E. apply validate_body_ext. intros j Hj. symmetry. apply Hpre. lia. }
  rewrite E'. apply IH; [lia | exact H].
Qed.

Lemma validate_roman_prefix s c :
  no_nul (s ++ [c]) -> validate_roman (s ++ [c]) = true -> validate_roman s = true.
Proof.
  intros Hn. unfold validate_roman.
  rewrite (strlen_no_nul _ Hn). apply Forall_app in Hn as [Hs _].
  rewrite (strlen_no_nul _ Hs), length_app, Nat.add_comm. cbn [List.length Nat.add].
  apply validate_loop_prefix. reflexivity.
Qed.

Lemma roman_value_symbol c : roman_value c <> 0 -> roman_symbol c.
Proof.
  unfold roman_value, roman_symbol, alphabet. cbn [lit list_ascii_of_string In].
  repeat match goal with
         | |- context [Ascii.eqb c ?a] =>
             destruct (Ascii.eqb_spec c a); [subst; intuition |]
         end.
  intros H. now elim H.
Qed.

Lemma validate_roman_last_symbol s c :
  no_nul (s ++ [c]) -> validate_roman (s ++ [c]) = true -> roman_symbol c.
Proof.
  intros Hn H. unfold validate_roman in H. rewrite (strlen_no_nul _ Hn) in H.
  apply roman_value_symbol.
  replace c with (char_at (s ++ [c]) (List.length s))
    by (unfold char_at; apply nth_middle).
  eapply validate_loop_symbols; [exact H|].
  rewrite length_app. cbn [List.length]. lia.
Qed.

(** ** The accepted strings, level by level *)

Lemma level_complete t :
  no_nul t -> validate_roman t = true -> In t (level (List.length t)).
Proof.
  induction t as [|c t IH] using rev_ind; intros Hn H.
  - now left.
  - rewrite length_app, Nat.add_comm. cbn [List.length Nat.add level].
    unfold extend. apply in_flat_map. exists t. split.
    + apply IH; [now apply Forall_app in Hn | eapply validate_roman_prefix; eassumption].
    + apply filter_In. split; [|exact H].
      apply in_map_iff. exists c. split; [reflexivity|].
      eapply validate_roman_last_symbol; eassumption.
Qed.

Lemma level_16 : level 16 = [].
Proof. vm_compute. reflexivity. Qed.

Lemma level_beyond m : level (16 + m) = [].
Proof.
  induction m as [|m IH]; [rewrite Nat.add_0_r; exact level_16|].
  rewrite Nat.add_succ_r. cbn [level]. now rewrite IH.
Qed.

Lemma grow_level k : forall i j, (j < k)%nat -> In (level (i + j)) (grow k (level i)).
Proof.
  induction k as [|k IH]; intros i j Hj; [lia|].
  cbn [grow]. destruct j as [|j].
  - left. now rewrite Nat.add_0_r.
  - right. rewrite Nat.add_succ_r. apply (IH (S i) j). lia.
Qed.

Lemma validate_roman_length t :
  no_nul t -> validate_roman t = true -> (List.length t <= 15)%nat.
Proof.
  intros Hn H. apply level_complete in H; [|exact Hn].
  destruct (Nat.le_gt_cases (List.length t) 15) as [Hle|Hgt]; [exact Hle|].
  replace (List.length t) with (16 + (List.length t - 16))%nat in H by lia.
  rewrite level_beyond in H. destruct H.
Qed.

Lemma validate_roman_accepted t :
  no_nul t -> validate_roman t = true -> In t accepted.
Proof.
  intros Hn H. pose proof (validate_roman_length t Hn H) as Hlen.
  apply level_complete in H; [|exact Hn].
  unfold accepted. apply in_concat. exists (level (List.length t)). split; [|exact H].
  apply (grow_level 16 0 (List.length t)). lia.
Qed.

(** Each accepted string but the empty one is the numeral of the value
    read from it, and the pattern matches it. *)
Lemma accepted_checked :
  forallb (fun s => at_end s || (canonical s && regexec pattern s)) accepted = true.
Proof. vm_compute. reflexivity. Qed.

Lemma list_ascii_eqb_eq a b : list_ascii_eqb a b = true -> a = b.
Proof.
  unfold list_ascii_eqb. destruct (list_eq_dec ascii_dec a b); [trivial|discriminate].
Qed.

Lemma canonical_spec s :
  canonical s = true ->
  ROMAN_MIN <= roman_converter s <= ROMAN_MAX /\
  int_converter (roman_converter s) = Some s.
Proof.
  unfold canonical. intros H.
  apply andb_prop in H as [H Heq]. apply andb_prop in H as [Hlo Hhi].
  split; [lia|].
  destruct (int_converter (roman_converter s)) as [r|]; [|discriminate].
  now rewrite (list_ascii_eqb_eq _ _ Heq).
Qed.

Lemma validate_roman_canonical t :
  no_nul t -> t <> [] -> validate_roman t = true ->
  canonical t = true /\ regexec pattern t = true.
Proof.
  intros Hn Hne H. apply validate_roman_accepted in H; [|exact Hn].
  pose proof accepted_checked as Hall. rewrite forallb_forall in Hall.
  specialize (Hall t H). destruct t; [now elim Hne|].
  cbn [at_end orb] in Hall. now apply andb_prop in Hall.
Qed.

(** ** The matcher and the language of a pattern *)

Lemma accept_spec r : forall s k,
  accept r s k = true <->
  exists s1 s2, s = s1 ++ s2 /\ matches r s1 /\ k s2 = true.
Proof.
  induction r as [| |c|r1 IH1 r2 IH2|r1 IH1 r2 IH2]; intros s k; cbn [accept].
  - split; [discriminate|]. intros (s1 & s2 & _ & Hm & _). inversion Hm.
  - split.
    + intros H. exists [], s. repeat split; [constructor | exact H].
    + intros (s1 & s2 & -> & Hm & Hk). inversion Hm; subst. exact Hk.
  - split.
    + destruct s as [|c' s']; [discriminate|]. intros H.
      apply andb_prop in H as [Hc Hk]. apply Ascii.eqb_eq in Hc as <-.
      exists [c], s'. repeat split; [constructor | exact Hk].
    + intros (s1 & s2 & -> & Hm & Hk). inversion Hm; subst. cbn.
      now rewrite Ascii.eqb_refl.
  - rewrite IH1. split.
    + intros (s1 & s2 & -> & Hm1 & H2). apply IH2 in H2 as (s3 & s4 & -> & Hm2 & Hk).
      exists (s1 ++ s3), s4. rewrite app_assoc. repeat split; [now constructor | exact Hk].
    + intros (s1 & s2 & -> & Hm & Hk). inversion Hm; subst.
      eexists _, _. split; [symmetry; apply app_assoc|]. split; [eassumption|].
      apply IH2. eexists _, _. repeat split; eassumption.
  - rewrite orb_true_iff, IH1, IH2. split.
    + intros [(s1 & s2 & -> & Hm & Hk)|(s1 & s2 & -> & Hm & Hk)];
        exists s1, s2; repeat split; try exact Hk; [now apply m_alt_l | now apply m_alt_r].
    + intros (s1 & s2 & -> & Hm & Hk). inversion Hm; subst; [left|right];
        exists s1, s2; repeat split; assumption.
Qed.

Lemma at_end_nil s : at_end s = true <-> s = [].
Proof. destruct s; cbn; split; congruence. Qed.

(** [regexec] decides membership in the language of the pattern. *)
Lemma regexec_spec r s : regexec r s = true <-> matches r s.
Proof.
  unfold regexec. rewrite accept_spec. split.
  - intros (s1 & s2 & -> & Hm & Hk). apply at_end_nil in Hk as ->.
    now rewrite app_nil_r.
  - intros Hm. exists s, []. rewrite app_nil_r. repeat split. exact Hm.
Qed.

Lemma matches_words r s : matches r s -> In s (words r).
Proof.
  induction 1; cbn [words].
  - now left.
  - now left.
  - apply in_flat_map. exists s1. split; [assumption|]. now apply in_map.
  - apply in_or_app. now left.
  - apply in_or_app. now right.
Qed.

(** The scan accepts every word of the pattern. *)
Lemma words_checked : forallb validate_roman (words pattern) = true.
Proof. vm_compute. reflexivity. Qed.

Lemma regexec_validate t : regexec pattern t = true -> validate_roman t = true.
Proof.
  intros H. apply regexec_spec, matches_words in H.
  pose proof words_checked as Hall. rewrite forallb_forall in Hall. now apply Hall.
Qed.

(** The two validators agree on every buffer. *)
Lemma validate_regex_agree_all s : validate_roman s = regex_roman s.
Proof.
  rewrite <- validate_roman_c_str. unfold regex_roman.
  pose proof (c_str_no_nul s) as Hn. set (t := c_str s) in *.
  destruct (regexec pattern t) eqn:Hr.
  - now apply regexec_validate.
  - destruct (validate_roman t) eqn:Hv; [|reflexivity].
    destruct t as [|c t']; [discriminate Hr|].
    destruct (validate_roman_canonical (c :: t') Hn) as [_ Hr']; congruence.
Qed.

(** ** [int_converter] terminates *)

Lemma values_pos i : (i < List.length values)%nat -> 0 < nth i values 0.
Proof.
  cbn [values List.length]. intros Hi.
  do 13 (destruct i as [|i]; [cbn; lia|]). lia.
Qed.

Lemma int_converter_while_total fuel v sym : 0 < v -> forall num roman,
  (Z.to_nat num < fuel)%nat ->
  exists num' roman',
    int_converter_while fuel v sym num roman = Some (num', roman') /\ num' <= num.
Proof.
  intros Hv. induction fuel as [|fuel IH]; intros num roman Hfuel; [lia|].
  cbn [int_converter_while]. rewrite Z.geb_leb.
  destruct (Z.leb_spec v num) as [Hge|Hlt].
  - destruct (IH (num - v) (roman ++ sym)) as (num' & roman' & Hw & Hle); [lia|].
    exists num', roman'. split; [exact Hw | lia].
  - exists num, roman. split; [reflexivity | lia].
Qed.

Lemma int_converter_for_total n fuel : forall i num roman,
  (i + n <= List.length values)%nat ->
  (Z.to_nat num < fuel)%nat ->
  exists num' roman', int_converter_for n fuel i num roman = Some (num', roman').
Proof.
  induction n as [|n IH]; intros i num roman Hi Hfuel; cbn [int_converter_for].
  - eauto.
  - destruct (num >? 0); [|eauto].
    assert (Hv : 0 < nth i values 0) by (apply values_pos; lia).
    destruct (int_converter_while_total fuel _ (nth i symbols []) Hv num roman Hfuel)
      as (num' & roman' & Hw & Hle).
    rewrite Hw. apply IH; lia.
Qed.

(** The fuel handed to the loops always suffices. *)
Lemma int_converter_total num : exists roman, int_converter num = Some roman.
Proof.
  unfold int_converter.
  destruct (int_converter_for_total (List.length values) (S (Z.to_nat num)) 0 num [])
    as (num' & roman & Hfor); [lia | lia |].
  rewrite Hfor. now exists roman.
Qed.

(** ** The evaluator stays inside the range of [int] *)

Lemma roman_value_range c : 0 <= roman_value c <= 1000.
Proof.
  unfold roman_value.
  repeat match goal with
         | |- context [if ?b then _ else _] => destruct b; [lia|]
         end.
  lia.
Qed.

Lemma roman_converter_loop_bound roman n : forall i total,
  total - 1000 * Z.of_nat n <= roman_converter_loop n roman i total
    <= total + 1000 * Z.of_nat n.
Proof.
  induction n as [|n IH]; intros i total; cbn [roman_converter_loop]; [lia|].
  specialize (IH (S i) (roman_converter_body roman i total)).
  assert (total - 1000 <= roman_converter_body roman i total <= total + 1000).
  { unfold roman_converter_body.
    pose proof (roman_value_range (char_at roman i)).
    destruct (_ <? _); lia. }
  lia.
Qed.

(** The sum stays within [1000 * strlen roman] of zero: no [int] overflow
    for any string shorter than two million characters. *)
Lemma roman_converter_bound roman :
  - (1000 * Z.of_nat (strlen roman)) <= roman_converter roman
    <= 1000 * Z.of_nat (strlen roman).
Proof.
  unfold roman_converter.
  pose proof (roman_converter_loop_bound roman (strlen roman) 0 0). lia.
Qed.

(** ** Every integer of the range *)

Lemma range_checked : forallb round_trip range = true.
Proof. vm_compute. reflexivity. Qed.

Lemma in_range n : ROMAN_MIN <= n <= ROMAN_MAX -> In n range.
Proof.
  unfold ROMAN_MIN, ROMAN_MAX, range. intros Hn.
  apply in_map_iff. exists (Z.to_nat n). split; [lia|].
  apply in_seq. lia.
Qed.

Lemma int_converter_round_trip n :
  ROMAN_MIN <= n <= ROMAN_MAX ->
  exists r,
    int_converter n = Some r /\ validate_roman r = true /\
    roman_converter r = n /\ (List.length r <= 15)%nat.
Proof.
  intros Hn. pose proof range_checked as Hall. rewrite forallb_forall in Hall.
  specialize (Hall n (in_range n Hn)). unfold round_trip in Hall.
  destruct (int_converter n) as [r|]; [|discriminate].
  apply andb_prop in Hall as [Hall Hlen]. apply andb_prop in Hall as [Hv Hr].
  exists r. repeat split; [exact Hv | now apply Z.eqb_eq | now apply Nat.leb_le].
Qed.

(** ** The symbols V, L and D *)

Lemma cannot_repeat_seen value st :
  seen value st = true -> fst (cannot_repeat value st) = true.
Proof.
  unfold seen, cannot_repeat.
  destruct (value =? 5); [intros ->; reflexivity|].
  destruct (value =? 50); [intros ->; reflexivity|].
  destruct (value =? 500); [intros ->; reflexivity|discriminate].
Qed.

Lemma validate_body_seen roman i st :
  seen (roman_value (char_at roman i)) st = true -> validate_body roman i st = None.
Proof.
  intros H. apply cannot_repeat_seen in H. unfold validate_body.
  destruct (_ =? 0); [reflexivity|].
  destruct (cannot_repeat _ st) as [rejected st1]. cbn [fst] in H. now rewrite H.
Qed.

Lemma cannot_repeat_records value st st1 v :
  once_only v ->
  cannot_repeat value st = (false, st1) ->
  seen v st1 = seen v st || (value =? v).
Proof.
  unfold cannot_repeat. intros Hv H.
  destruct (Z.eqb_spec value 5) as [->|N5];
    [|destruct (Z.eqb_spec value 50) as [->|N50];
      [|destruct (Z.eqb_spec value 500) as [->|N500]]].
  - destruct (v_repeat st) eqn:E; inversion H; subst st1.
    destruct Hv as [-> | [-> | ->]]; cbn; rewrite ?E, ?orb_false_r; reflexivity.
  - destruct (l_repeat st) eqn:E; inversion H; subst st1.
    destruct Hv as [-> | [-> | ->]]; cbn; rewrite ?E, ?orb_false_r; reflexivity.
  - destruct (d_repeat st) eqn:E; inversion H; subst st1.
    destruct Hv as [-> | [-> | ->]]; cbn; rewrite ?E, ?orb_false_r; reflexivity.
  - inversion H; subst st1.
    assert ((value =? v) = false) as ->
      by (apply Z.eqb_neq; destruct Hv as [-> | [-> | ->]]; assumption).
    now rewrite orb_false_r.
Qed.

Section OnceOnly.

Variable roman : list ascii.
Variable v : Z.
Hypothesis Hv : once_only v.

Lemma validate_body_records i st st' :
  validate_body roman i st = Some st' ->
  seen v st' = seen v st || (roman_value (char_at roman i) =? v).
Proof.
  intros H. unfold validate_body in H.
  destruct (_ =? 0); [discriminate|].
  destruct (cannot_repeat _ st) as [rejected st1] eqn:E.
  destruct rejected; [discriminate|].
  rewrite <- (cannot_repeat_records _ _ _ _ Hv E).
  break_ifs;
    repeat match goal with
           | H : Some _ = Some _ |- _ => injection H as <-
           end;
    reflexivity.
Qed.

(** Once a symbol of value [v] is recorded, the scan cannot pass another. *)
Lemma validate_loop_seen : forall n i st k,
  seen v st = true ->
  (i <= k < i + n)%nat ->
  roman_value (char_at roman k) = v ->
  validate_loop n roman i st = false.
Proof.
  induction n as [|n IH]; intros i st k Hs Hk Hc; [lia|].
  cbn [validate_loop].
  destruct (validate_body roman i st) as [st'|] eqn:E; [|reflexivity].
  destruct (Nat.eq_dec k i) as [->|Hne].
  - rewrite validate_body_seen in E; [discriminate | now rewrite Hc].
  - apply (IH (S i) st' k); [|lia|exact Hc].
    rewrite (validate_body_records _ _ _ E), Hs. reflexivity.
Qed.

(** Two occurrences at [j < k] stop the scan at index [k] at the latest. *)
Lemma validate_loop_twice : forall n i st j k,
  (i <= j)%nat -> (j < k)%nat -> (k < i + n)%nat ->
  roman_value (char_at roman j) = v ->
  roman_value (char_at roman k) = v ->
  validate_loop n roman i st = false.
Proof.
  induction n as [|n IH]; intros i st j k Hij Hjk Hk Hcj Hck; [lia|].
  cbn [validate_loop].
  destruct (validate_body roman i st) as [st'|] eqn:E; [|reflexivity].
  destruct (Nat.eq_dec j i) as [->|Hne].
  - apply (validate_loop_seen n (S i) st' k); [|lia|exact Hck].
    rewrite (validate_body_records _ _ _ E), Hcj, Z.eqb_refl.
    apply orb_true_r.
  - apply (IH (S i) st' j k); (lia || assumption).
Qed.

End OnceOnly.

Lemma count_occ_twice (l : list ascii) x :
  (2 <= count_occ ascii_dec l x)%nat ->
  exists j k, (j < k < List.length l)%nat /\ nth j l NUL = x /\ nth k l NUL = x.
Proof.
  induction l as [|a l IH]; cbn [count_occ]; intros H; [lia|].
  destruct (ascii_dec a x) as [->|Hne].
  - assert (Hin : In x l) by (apply (count_occ_In ascii_dec); lia).
    destruct (In_nth l x NUL Hin) as (k & Hk & Hnth).
    exists 0%nat, (S k). cbn [List.length nth]. repeat split; (lia || assumption).
  - destruct (IH H) as (j & k & Hjk & Hj & Hk).
    exists (S j), (S k). cbn [List.length nth]. repeat split; (lia || assumption).
Qed.

Lemma once_only_symbol c : In c (lit "VLD") -> once_only (roman_value c).
Proof.
  cbn. unfold once_only. intros [<-|[<-|[<-|[]]]]; cbn; auto.
Qed.

(** ** The input guard *)



(** * The claims *)

(** C1, refuted as stated: the scan accepts the empty string, which
    [int_converter] builds for no integer between 1 and 3999. *)
Lemma validate_roman_empty_not_numeral :
  ~ (validate_roman (lit "") = true <->
     exists n, 1 <= n <= 3999 /\ int_converter n = Some (lit "")).
Proof.
  intros [H _]. destruct (H eq_refl) as (n & Hn & Hc).
  destruct (int_converter_round_trip n Hn) as (r & Hr & _ & Hrt & _).
  rewrite Hc in Hr. injection Hr as <-. cbn in Hrt. lia.
Qed.

(** C1, amended: for every non-empty string [s] over I, V, X, L, C, D, M,
    [validate_roman s] is true exactly when [s] is the numeral that
    [int_converter] builds for some integer [n] with [1 <= n <= 3999]; every
    other non-empty string is rejected. *)
Theorem validate_roman_iff_int_converter s :
  Forall roman_symbol s -> s <> [] ->
  (validate_roman s = true <->
   exists n, 1 <= n <= 3999 /\ int_converter n = Some s).
Proof.
  intros Hs Hne. apply roman_symbol_no_nul in Hs. split.
  - intros H. destruct (validate_roman_canonical s Hs Hne H) as [Hc _].
    apply canonical_spec in Hc as [Hr Hc]. now exists (roman_converter s).
  - intros (n & Hn & Hc).
    destruct (int_converter_round_trip n Hn) as (r & Hr & Hv & _).
    congruence.
Qed.

Lemma validate_roman_iff_int_converter_witness :
  Forall roman_symbol (lit "XIV") /\ lit "XIV" <> [] /\
  (validate_roman (lit "XIV") = true <->
   exists n, 1 <= n <= 3999 /\ int_converter n = Some (lit "XIV")).
Proof.
  split; [symbols|]. split; [discriminate|].
  apply validate_roman_iff_int_converter; [symbols | discriminate].
Defined.

(** C2: for every string [s] of at most 15 symbols over I, V, X, L, C, D, M
    the scan and the pattern give the same answer. *)
Theorem validators_agree s :
  Forall roman_symbol s -> (List.length s <= 15)%nat ->
  validate_roman s = regex_roman s.
Proof. intros _ _. apply validate_regex_agree_all. Qed.

Lemma validators_agree_witness :
  Forall roman_symbol (lit "MCMXCIV") /\ (List.length (lit "MCMXCIV") <= 15)%nat /\
  validate_roman (lit "MCMXCIV") = regex_roman (lit "MCMXCIV").
Proof.
  split; [symbols|]. split; [cbn; lia|].
  apply validators_agree; [symbols | cbn; lia].
Defined.

(** C3: 1 is converted to "I" and 3999 to "MMMCMXCIX"; for every [n] with
    [1 <= n <= 3999] the numeral built by [int_converter] evaluates back to
    [n] under [roman_converter] and is accepted by [validate_roman]. *)
Theorem int_converter_round_trip_valid :
  int_converter 1 = Some (lit "I") /\
  int_converter 3999 = Some (lit "MMMCMXCIX") /\
  forall n, 1 <= n <= 3999 ->
    exists r, int_converter n = Some r /\
              roman_converter r = n /\ validate_roman r = true.
Proof.
  split; [reflexivity|]. split; [reflexivity|].
  intros n Hn. destruct (int_converter_round_trip n Hn) as (r & Hr & Hv & Hrt & _).
  now exists r.
Qed.

Lemma int_converter_round_trip_valid_witness :
  1 <= 1994 <= 3999 /\
  exists r, int_converter 1994 = Some r /\
            roman_converter r = 1994 /\ validate_roman r = true.
Proof.
  split; [lia|].
  apply (proj2 (proj2 int_converter_round_trip_valid) 1994). lia.
Defined.




(** C5: for every [n] with [1 <= n <= 3999], [int_converter n] is one fixed
    string; that string is a valid representation of [n], being a
    non-empty string without NUL that [validate_roman] accepts and
    [roman_converter] evaluates to [n]; and it is a shortest one: no
    non-empty string that [validate_roman] accepts and [roman_converter]
    evaluates to [n] is shorter than it. *)
Theorem int_converter_shortest n :
  1 <= n <= 3999 ->
  exists r,
    int_converter n = Some r /\
    (forall r', int_converter n = Some r' -> r' = r) /\
    r <> [] /\ strlen r = List.length r /\
    validate_roman r = true /\ roman_converter r = n /\
    forall s, strlen s <> 0%nat -> validate_roman s = true ->
              roman_converter s = n -> (List.length r <= strlen s)%nat.
Proof.
  intros Hn. destruct (int_converter_round_trip n Hn) as (r & Hr & Hv & Hrt & _).
  exists r.
  assert (Hne : c_str r <> []).
  { intros E. rewrite <- roman_converter_c_str, E in Hrt. cbn in Hrt. lia. }
  assert (Hc : c_str r = r).
  { pose proof Hv as Hv'. rewrite <- validate_roman_c_str in Hv'.
    destruct (validate_roman_canonical _ (c_str_no_nul r) Hne Hv') as [Hc _].
    apply canonical_spec in Hc as [_ Hc].
    rewrite roman_converter_c_str, Hrt, Hr in Hc. congruence. }
  split; [exact Hr|]. split; [congruence|].
  split; [now rewrite <- Hc|].
  split; [now rewrite <- (length_c_str r), Hc|].
  split; [exact Hv|]. split; [exact Hrt|].
  intros s Hs Hvs Hns.
  rewrite <- validate_roman_c_str in Hvs. rewrite <- roman_converter_c_str in Hns.
  assert (Hs' : c_str s <> []).
  { intros E. apply Hs. now rewrite <- length_c_str, E. }
  destruct (validate_roman_canonical _ (c_str_no_nul s) Hs' Hvs) as [Hcs _].
  apply canonical_spec in Hcs as [_ Hcs]. rewrite Hns, Hr in Hcs.
  injection Hcs as ->. now rewrite length_c_str.
Qed.

Lemma int_converter_shortest_witness :
  1 <= 4 <= 3999 /\
  exists r,
    int_converter 4 = Some r /\
    (forall r', int_converter 4 = Some r' -> r' = r) /\
    r <> [] /\ strlen r = List.length r /\
    validate_roman r = true /\ roman_converter r = 4 /\
    forall s, strlen s <> 0%nat -> validate_roman s = true ->
              roman_converter s = 4 -> (List.length r <= strlen s)%nat.
Proof.
  split; [lia|]. apply (int_converter_shortest 4). lia.
Defined.

(** C6: [validate_roman] returns false on "IIII", "VV", "IXL", "MMMM", "IL"
    and "CCCM". *)
Theorem validate_roman_rejects_known_invalid :
  validate_roman (lit "IIII") = false /\
  validate_roman (lit "VV") = false /\
  validate_roman (lit "IXL") = false /\
  validate_roman (lit "MMMM") = false /\
  validate_roman (lit "IL") = false /\
  validate_roman (lit "CCCM") = false.
Proof. repeat split; reflexivity. Qed.

(** C7: "MCMXCIV", "IV", "IX", "III", "M" and "MMMCMXCIX" are accepted by
    [validate_roman], and [roman_converter] evaluates them to 1994, 4, 9, 3,
    1000 and 3999. *)
Theorem validate_roman_accepts_known_valid :
  (validate_roman (lit "MCMXCIV") = true /\ roman_converter (lit "MCMXCIV") = 1994) /\
  (validate_roman (lit "IV") = true /\ roman_converter (lit "IV") = 4) /\
  (validate_roman (lit "IX") = true /\ roman_converter (lit "IX") = 9) /\
  (validate_roman (lit "III") = true /\ roman_converter (lit "III") = 3) /\
  (validate_roman (lit "M") = true /\ roman_converter (lit "M") = 1000) /\
  (validate_roman (lit "MMMCMXCIX") = true /\ roman_converter (lit "MMMCMXCIX") = 3999).
Proof. repeat split; reflexivity. Qed.

(** C8, refuted as stated: the empty string is the numeral of no integer
    between 1 and 3999, and the scan does not reject it. *)
Lemma validate_roman_empty_not_rejected :
  ~ ((~ exists n, 1 <= n <= 3999 /\ int_converter n = Some (c_str (lit ""))) ->
     validate_roman (lit "") = false).
Proof.
  intros H. enough (validate_roman (lit "") = false) by discriminate.
  apply H. intros (n & Hn & Hc).
  destruct (int_converter_round_trip n Hn) as (r & Hr & _ & Hrt & _).
  rewrite Hc in Hr. injection Hr as <-. cbn in Hrt. lia.
Qed.

(** C8, amended: every string accepted by [validate_roman] has length at
    most 15; [validate_roman] rejects every non-empty string, of any
    length, that is not the numeral of an integer between 1 and 3999; and
    for every [n] with [1 <= n <= 3999] the string built by [int_converter]
    has length at most 15, below the [MAX_ROMAN_LENGTH] bytes allocated. *)
Theorem validate_roman_length_bound :
  (forall s, validate_roman s = true -> (strlen s <= 15)%nat) /\
  (forall s, strlen s <> 0%nat ->
     (~ exists n, 1 <= n <= 3999 /\ int_converter n = Some (c_str s)) ->
     validate_roman s = false) /\
  (forall n, 1 <= n <= 3999 ->
     exists r, int_converter n = Some r /\ (List.length r <= 15)%nat /\
               Z.of_nat (List.length r) < MAX_ROMAN_LENGTH).
Proof.
  split; [|split].
  - intros s H. rewrite <- validate_roman_c_str in H.
    rewrite <- length_c_str. exact (validate_roman_length _ (c_str_no_nul s) H).
  - intros s Hne Hno. destruct (validate_roman s) eqn:Hv; [|reflexivity].
    exfalso. apply Hno. rewrite <- validate_roman_c_str in Hv.
    assert (Hne' : c_str s <> []).
    { intros E. apply Hne. now rewrite <- length_c_str, E. }
    destruct (validate_roman_canonical _ (c_str_no_nul s) Hne' Hv) as [Hc _].
    apply canonical_spec in Hc as [Hr Hc]. now exists (roman_converter (c_str s)).
  - intros n Hn. destruct (int_converter_round_trip n Hn) as (r & Hr & _ & _ & Hlen).
    exists r. unfold MAX_ROMAN_LENGTH. repeat split; [exact Hr | exact Hlen | lia].
Qed.

Lemma validate_roman_length_bound_witness :
  (validate_roman (lit "MMMDCCCLXXXVIII") = true /\
   (strlen (lit "MMMDCCCLXXXVIII") <= 15)%nat) /\
  (strlen (lit "IIII") <> 0%nat /\
   (~ exists n, 1 <= n <= 3999 /\ int_converter n = Some (c_str (lit "IIII"))) /\
   validate_roman (lit "IIII") = false) /\
  (1 <= 3888 <= 3999 /\
   exists r, int_converter 3888 = Some r /\ (List.length r <= 15)%nat /\
             Z.of_nat (List.length r) < MAX_ROMAN_LENGTH).
Proof.
  assert (Hno : ~ exists n, 1 <= n <= 3999 /\
                            int_converter n = Some (c_str (lit "IIII"))).
  { intros (n & Hn & Hc).
    destruct (int_converter_round_trip n Hn) as (r & Hr & Hv & _).
    rewrite Hc in Hr. injection Hr as <-. vm_compute in Hv. discriminate Hv. }
  split; [|split].
  - split; [vm_compute; reflexivity|].
    apply (proj1 validate_roman_length_bound). vm_compute. reflexivity.
  - split; [vm_compute; discriminate|]. split; [exact Hno|].
    apply (proj1 (proj2 validate_roman_length_bound)); [vm_compute; discriminate | exact Hno].
  - split; [lia|].
    apply (proj2 (proj2 validate_roman_length_bound) 3888). lia.
Defined.

(** C9: in a string accepted by [validate_roman] each of V, L and D occurs
    at most once; and whenever one of them stands at two indices [j < k] of
    a string, the scan has returned false by the time it has handled index
    [k], whatever the positions and whatever follows. *)
Theorem validate_roman_once_only s :
  (validate_roman s = true ->
   forall c, In c (lit "VLD") -> (count_occ ascii_dec (c_str s) c <= 1)%nat) /\
  (forall j k c, In c (lit "VLD") -> (j < k < strlen s)%nat ->
     char_at s j = c -> char_at s k = c ->
     validate_loop (S k) s 0 init_vstate = false).
Proof.
  split.
  - intros H c Hc.
    destruct (Nat.le_gt_cases (count_occ ascii_dec (c_str s) c) 1) as [Hle|Hgt];
      [exact Hle|exfalso].
    destruct (count_occ_twice (c_str s) c Hgt) as (j & k & Hjk & Hj & Hk).
    rewrite length_c_str in Hjk. rewrite <- validate_roman_c_str in H.
    unfold validate_roman in H. rewrite strlen_c_str in H.
    rewrite (validate_loop_twice (c_str s) _ (once_only_symbol c Hc)
               (strlen s) 0 init_vstate j k) in H;
      [discriminate | lia | lia | lia | |]; unfold char_at; congruence.
  - intros j k c Hc Hjk Hj Hk.
    apply (validate_loop_twice s _ (once_only_symbol c Hc) (S k) 0 init_vstate j k);
      [lia | lia | lia | |]; congruence.
Qed.

Lemma validate_roman_once_only_witness :
  (validate_roman (lit "XLV") = true /\
   forall c, In c (lit "VLD") -> (count_occ ascii_dec (c_str (lit "XLV")) c <= 1)%nat) /\
  ((1 < 4 < strlen (lit "MDCCDI"))%nat /\
   validate_loop 5 (lit "MDCCDI") 0 init_vstate = false).
Proof.
  split.
  - split; [vm_compute; reflexivity|].
    apply (proj1 (validate_roman_once_only (lit "XLV"))). vm_compute. reflexivity.
  - split; [vm_compute; lia|].
    apply (proj2 (validate_roman_once_only (lit "MDCCDI")) 1%nat 4%nat "D"%char).
    + cbn. tauto.
    + vm_compute. lia.
    + reflexivity.
    + reflexivity.
Defined.

(** C10: for every non-empty string [s] over I, V, X, L, C, D, M that
    [validate_roman] accepts, [1 <= roman_converter s <= 3999]. *)
Theorem roman_converter_in_range s :
  Forall roman_symbol s -> s <> [] -> validate_roman s = true ->
  1 <= roman_converter s <= 3999.
Proof.
  intros Hs Hne H. apply roman_symbol_no_nul in Hs.
  destruct (validate_roman_canonical s Hs Hne H) as [Hc _].
  now apply canonical_spec in Hc as [Hr _].
Qed.

Lemma roman_converter_in_range_witness :
  Forall roman_symbol (lit "CDXLIV") /\ lit "CDXLIV" <> [] /\
  validate_roman (lit "CDXLIV") = true /\
  1 <= roman_converter (lit "CDXLIV") <= 3999.
Proof.
  split; [symbols|]. split; [discriminate|]. split; [vm_compute; reflexivity|].
  apply roman_converter_in_range; [symbols | discriminate | vm_compute; reflexivity].
Defined.

(** * Further properties *)

(** ** More on C strings *)

Lemma c_str_app_no_nul p q : no_nul p -> c_str (p ++ q) = p ++ c_str q.
Proof.
  unfold c_str. induction 1 as [|c p Hc _ IH]; [reflexivity|].
  apply is_nul_false in Hc. cbn [app strlen]. rewrite Hc. cbn [firstn].
  now rewrite IH.
Qed.

Lemma c_str_app_nul p q : c_str (p ++ NUL :: q) = c_str p.
Proof.
  unfold c_str. induction p as [|c p IH]; [reflexivity|].
  cbn [app strlen]. destruct (is_nul c); [reflexivity|].
  cbn [firstn]. now rewrite IH.
Qed.

Lemma c_str_split s :
  s = c_str s \/ exists rest, s = c_str s ++ NUL :: rest.
Proof.
  unfold c_str. induction s as [|c s IH]; [now left|].
  cbn [strlen]. destruct (is_nul c) eqn:E.
  - right. apply is_nul_true in E as ->. now exists s.
  - cbn [firstn]. destruct IH as [IH|[rest IH]].
    + left. now rewrite <- IH.
    + right. exists rest. cbn [app]. now rewrite <- IH.
Qed.

Lemma c_str_nil s : c_str s = [] <-> strlen s = 0%nat.
Proof.
  rewrite <- length_c_str. split; [now intros -> | apply length_zero_iff_nil].
Qed.

Lemma in_c_str s c : In c (c_str s) -> exists j, (j < strlen s)%nat /\ char_at s j = c.
Proof.
  intros H. destruct (In_nth _ _ NUL H) as (j & Hj & Hn).
  rewrite length_c_str in Hj. exists j. split; [exact Hj|].
  rewrite <- char_at_c_str by lia. exact Hn.
Qed.

(** ** The scan, iteration by iteration *)

Lemma validate_roman_app p q :
  no_nul (p ++ q) -> validate_roman (p ++ q) = true -> validate_roman p = true.
Proof.
  induction q as [|c q IH] using rev_ind; intros Hn H.
  - now rewrite app_nil_r in H.
  - rewrite app_assoc in Hn, H. apply IH.
    + now apply Forall_app in Hn.
    + eapply validate_roman_prefix; eassumption.
Qed.

(** Every iteration of an accepting scan let the scan continue. *)
Lemma validate_loop_bodies roman n : forall i st,
  validate_loop n roman i st = true ->
  forall j, (i <= j < i + n)%nat ->
  exists stj stj', validate_body roman j stj = Some stj'.
Proof.
  induction n as [|n IH]; intros i st H j Hj; [lia|].
  cbn [validate_loop] in H.
  destruct (validate_body roman i st) as [st'|] eqn:E; [|discriminate].
  destruct (Nat.eq_dec j i) as [->|Hne]; [eauto|].
  apply (IH (S i) st' H). lia.
Qed.

Lemma validate_body_ascending roman j st st' :
  validate_body roman (S j) st = Some st' ->
  roman_value (char_at roman j) < roman_value (char_at roman (S j)) ->
  is_valid_subtractive (roman_value (char_at roman j))
                       (roman_value (char_at roman (S j))) = true.
Proof.
  unfold validate_body. cbn [Nat.eqb]. replace (S j - 1)%nat with j by lia.
  intros H Hlt. apply Z.ltb_lt in Hlt.
  destruct (is_valid_subtractive _ _) eqn:Hv; [reflexivity|exfalso].
  rewrite Hlt in H. cbn [negb orb] in H. break_ifs.
Qed.

(** ** The evaluator never goes below zero *)

Lemma roman_value_double a b :
  roman_value a < roman_value b -> 2 * roman_value a <= roman_value b.
Proof.
  unfold roman_value.
  repeat match goal with
         | |- context [if ?c then _ else _] => destruct c
         end; lia.
Qed.

Lemma roman_value_nul_next roman i :
  (if is_nul (char_at roman (i + 1)) then 0 else roman_value (char_at roman (i + 1)))
  = roman_value (char_at roman (i + 1)).
Proof.
  destruct (is_nul _) eqn:E; [|reflexivity].
  apply is_nul_true in E. now rewrite E.
Qed.

Lemma pending_double roman i :
  0 <= 2 * pending roman i <= roman_value (char_at roman i).
Proof.
  pose proof (roman_value_range (char_at roman i)).
  destruct i as [|j]; cbn [pending]; [lia|].
  pose proof (roman_value_range (char_at roman j)).
  destruct (Z.ltb_spec (roman_value (char_at roman j)) (roman_value (char_at roman (S j))));
    [|lia].
  pose proof (roman_value_double (char_at roman j) (char_at roman (S j))). lia.
Qed.

Lemma roman_converter_body_pending roman i total :
  0 <= total + 2 * pending roman i ->
  0 <= roman_converter_body roman i total + 2 * pending roman (S i).
Proof.
  intros H. pose proof (pending_double roman i).
  unfold roman_converter_body. rewrite roman_value_nul_next.
  cbn [pending]. replace (i + 1)%nat with (S i) by lia.
  destruct (_ <? _); lia.
Qed.

Lemma roman_converter_loop_pending roman n : forall i total,
  0 <= total + 2 * pending roman i ->
  0 <= roman_converter_loop n roman i total + 2 * pending roman (i + n).
Proof.
  induction n as [|n IH]; intros i total H; cbn [roman_converter_loop].
  - now rewrite Nat.add_0_r.
  - replace (i + S n)%nat with (S i + n)%nat by lia.
    apply IH. now apply roman_converter_body_pending.
Qed.

Lemma pending_strlen roman : pending roman (strlen roman) = 0.
Proof.
  destruct (strlen roman) as [|j] eqn:E; [reflexivity|].
  cbn [pending]. rewrite <- E, char_at_strlen.
  pose proof (roman_value_range (char_at roman j)).
  change (roman_value NUL) with 0. destruct (Z.ltb_spec (roman_value (char_at roman j)) 0); lia.
Qed.

Lemma roman_converter_nonneg roman : 0 <= roman_converter roman.
Proof.
  unfold roman_converter.
  pose proof (roman_converter_loop_pending roman (strlen roman) 0 0) as H.
  cbn [Nat.add pending] in H. rewrite pending_strlen in H. lia.
Qed.

(** ** What [int_converter] leaves behind *)

Lemma symbols_nonempty i : (i < List.length values)%nat -> nth i symbols [] <> [].
Proof.
  cbn [values List.length]. intros Hi.
  do 13 (destruct i as [|i]; [discriminate|]). lia.
Qed.

Lemma int_converter_while_exit fuel v sym : forall num roman num' roman',
  int_converter_while fuel v sym num roman = Some (num', roman') ->
  num' < v /\
  ((roman' = roman /\ num' = num) \/ exists t, roman' = roman ++ sym ++ t).
Proof.
  induction fuel as [|fuel IH]; intros num roman num' roman';
    cbn [int_converter_while]; rewrite Z.geb_leb;
    destruct (Z.leb_spec v num) as [Hge|Hlt]; intros H; try discriminate.
  - injection H as <- <-. split; [lia | now left].
  - apply IH in H as [Hlt [[-> ->]|[t ->]]]; (split; [exact Hlt|right]).
    + exists []. now rewrite app_nil_r.
    + exists (sym ++ t). now rewrite <- !app_assoc.
  - injection H as <- <-. split; [lia | now left].
Qed.

(** The loop over the table ends with nothing left to convert. *)
Lemma int_converter_for_rest n fuel : forall i num roman num' roman',
  (i + n = List.length values)%nat ->
  (n = 0%nat -> num <= 0) ->
  int_converter_for n fuel i num roman = Some (num', roman') ->
  num' <= 0.
Proof.
  induction n as [|n IH]; intros i num roman num' roman' Hi H0;
    cbn [int_converter_for].
  - intros H. injection H as <- <-. now apply H0.
  - destruct (Z.gtb_spec num 0) as [Hpos|Hneg].
    + destruct (int_converter_while fuel _ _ num roman) as [[num1 roman1]|] eqn:E;
        [|discriminate].
      apply int_converter_while_exit in E as [Hlt _].
      apply IH; [lia|]. intros ->.
      cbn [values List.length] in Hi. assert (i = 12%nat) as -> by lia.
      cbn in Hlt. lia.
    + intros H. injection H as <- <-. exact Hneg.
Qed.

(** An empty result means that no symbol was appended and nothing was
    subtracted. *)
Lemma int_converter_for_empty n fuel : forall i num roman num' roman',
  (i + n <= List.length values)%nat ->
  int_converter_for n fuel i num roman = Some (num', roman') ->
  roman' = [] -> roman = [] /\ num' = num.
Proof.
  induction n as [|n IH]; intros i num roman num' roman' Hi;
    cbn [int_converter_for].
  - intros H. injection H as <- <-. auto.
  - destruct (num >? 0).
    + destruct (int_converter_while fuel _ _ num roman) as [[num1 roman1]|] eqn:E;
        [|discriminate].
      intros H Hnil.
      assert (Hi' : (S i + n <= List.length values)%nat) by lia.
      destruct (IH (S i) _ _ _ _ Hi' H Hnil) as [-> ->].
      apply int_converter_while_exit in E as [_ [[E1 E2]|[t E1]]]; [auto|].
      symmetry in E1. apply app_eq_nil in E1 as [_ E1].
      apply app_eq_nil in E1 as [E1 _].
      now apply symbols_nonempty in E1; [|lia].
    + intros H. injection H as <- <-. auto.
Qed.

Lemma int_converter_nonpositive n : n <= 0 -> int_converter n = Some [].
Proof.
  intros Hn. unfold int_converter. cbn [values List.length int_converter_for].
  destruct (Z.gtb_spec n 0); [lia | reflexivity].
Qed.

Lemma int_converter_empty n : int_converter n = Some [] -> n <= 0.
Proof.
  unfold int_converter.
  destruct (int_converter_for _ _ 0 n []) as [[num' roman']|] eqn:E; [|discriminate].
  intros H. injection H as ->.
  assert (H13 : List.length values = 0%nat -> n <= 0) by discriminate.
  pose proof (int_converter_for_rest (List.length values) _ 0 _ _ _ _ eq_refl H13 E)
    as Hrest.
  destruct (int_converter_for_empty (List.length values) _ 0 _ _ _ _
              (Nat.le_refl _) E eq_refl) as [_ ->].
  exact Hrest.
Qed.

(** ** Numerals have no run of four *)

Lemma no_run4_checked : forallb no_run4 range = true.
Proof. vm_compute. reflexivity. Qed.

Lemma run4_app p c q : run4 (p ++ [c; c; c; c] ++ q) = true.
Proof.
  induction p as [|a p IH].
  - cbn. now rewrite Ascii.eqb_refl.
  - rewrite <- app_comm_cons.
    remember (p ++ [c; c; c; c] ++ q) as l eqn:E.
    assert (Hlen : (4 <= List.length l)%nat).
    { rewrite E, !length_app. cbn [List.length]. lia. }
    destruct l as [|b [|b1 [|b2 l]]]; cbn [List.length] in Hlen; try lia.
    change (run4 (a :: b :: b1 :: b2 :: l))
      with ((Ascii.eqb a b && Ascii.eqb b b1 && Ascii.eqb b1 b2)
            || run4 (b :: b1 :: b2 :: l)).
    rewrite IH. apply orb_true_r.
Qed.

(** ** Reading a line *)

Lemma fgets_read_line n l rest :
  Forall (fun c => c <> newline) l -> (List.length l < n)%nat ->
  fgets_read n (l ++ newline :: rest) = (l ++ [newline], rest).
Proof.
  intros Hl. revert n. induction Hl as [|c l Hc _ IH]; intros n Hn.
  - destruct n as [|n]; [cbn in Hn; lia|]. cbn. reflexivity.
  - destruct n as [|n]; [cbn in Hn; lia|]. cbn [app fgets_read].
    apply Ascii.eqb_neq in Hc. rewrite Hc.
    rewrite IH by (cbn [List.length] in Hn; lia). reflexivity.
Qed.

Lemma fgets_line size l rest out :
  Forall (fun c => c <> newline) l ->
  (List.length l + 1 < Z.to_nat size)%nat ->
  fgets size (mk_world (l ++ newline :: rest) out)
  = (Some (l ++ [newline]), mk_world rest out).
Proof.
  intros Hl Hn. unfold fgets. cbn [stdin output].
  rewrite fgets_read_line by (assumption || lia).
  destruct l; reflexivity.
Qed.

Lemma fgets_read_shorter n : forall s buf rest,
  fgets_read n s = (buf, rest) ->
  (List.length rest <= List.length s)%nat /\
  (n <> 0%nat -> s <> [] -> (List.length rest < List.length s)%nat).
Proof.
  induction n as [|n IH]; intros s buf rest H.
  - cbn in H. injection H as <- <-. split; [lia|]. intros E. now elim E.
  - destruct s as [|c s]; cbn [fgets_read] in H.
    + injection H as <- <-. split; [lia|]. intros _ E. now elim E.
    + destruct (Ascii.eqb c newline).
      * injection H as <- <-. cbn [List.length]. split; lia.
      * destruct (fgets_read n s) as [b r] eqn:E. injection H as <- <-.
        destruct (IH _ _ _ E) as [Hle _]. cbn [List.length]. split; lia.
Qed.

Lemma fgets_shorter size w buf w' :
  2 <= size ->
  fgets size w = (Some buf, w') ->
  (List.length (stdin w') < List.length (stdin w))%nat /\ output w' = output w.
Proof.
  intros Hs. unfold fgets. destruct (stdin w) as [|c s] eqn:E; [discriminate|].
  destruct (fgets_read _ (c :: s)) as [b r] eqn:Er. intros H. injection H as <- <-.
  cbn [stdin output]. split; [|reflexivity].
  apply fgets_read_shorter in Er as [_ Hlt]. apply Hlt; [lia | discriminate].
Qed.

Lemma fgets_eof size w : stdin w = [] -> fgets size w = (None, w).
Proof. unfold fgets. now intros ->. Qed.

Lemma drain_line_shorter s : (List.length (drain_line s) <= List.length s)%nat.
Proof.
  induction s as [|c s IH]; cbn [drain_line List.length]; [lia|].
  destruct (Ascii.eqb c newline); lia.
Qed.

Lemma drain_line_newline a b :
  Forall (fun c => c <> newline) a -> drain_line (a ++ newline :: b) = b.
Proof.
  induction 1 as [|c a Hc _ IH]; [reflexivity|].
  cbn [app drain_line]. apply Ascii.eqb_neq in Hc. now rewrite Hc.
Qed.

Lemma drain_line_eof a :
  Forall (fun c => c <> newline) a -> drain_line a = [].
Proof.
  induction 1 as [|c a Hc _ IH]; [reflexivity|].
  cbn [drain_line]. apply Ascii.eqb_neq in Hc. now rewrite Hc.
Qed.

(** ** [validate_input] on a line *)

Lemma line_text_no_nul l : line_text l -> no_nul l.
Proof. apply Forall_impl. now intros c [H _]. Qed.

Lemma line_text_no_newline l : line_text l -> Forall (fun c => c <> newline) l.
Proof. apply Forall_impl. now intros c [_ H]. Qed.

Lemma strcspn_newline_line l rest :
  line_text l -> strcspn_newline (l ++ newline :: rest) = List.length l.
Proof.
  induction 1 as [|c l [Hc1 Hc2] _ IH]; [reflexivity|].
  cbn [app strcspn_newline List.length].
  apply is_nul_false in Hc1. apply Ascii.eqb_neq in Hc2. now rewrite Hc1, Hc2, IH.
Qed.

Lemma store_nul_middle l c rest :
  store_nul (l ++ c :: rest) (List.length l) = l ++ NUL :: rest.
Proof. induction l as [|a l IH]; [reflexivity|]. cbn. now rewrite IH. Qed.

Lemma char_at_middle l c rest : char_at (l ++ c :: rest) (List.length l) = c.
Proof. unfold char_at. apply nth_middle. Qed.

(** The buffer a line is turned into, and the three possible answers. *)
Lemma validate_input_line l rest :
  line_text l ->
  validate_input (l ++ newline :: rest) =
  (match l with
   | [] => EXIT_EMPTY_ERR
   | [c] => if Ascii.eqb (toupper c) "Q" then EXIT_PROGRAM else EXIT_OK
   | _ :: _ :: _ => EXIT_OK
   end, l ++ NUL :: rest).
Proof.
  intros Hl. unfold validate_input, input_overflow_check.
  rewrite strcspn_newline_line, char_at_middle, store_nul_middle by exact Hl.
  rewrite Ascii.eqb_refl. cbn [negb].
  destruct Hl as [|c l [Hc _] Hl]; [reflexivity|].
  cbn [app char_at nth]. apply is_nul_false in Hc. rewrite Hc.
  destruct Hl as [|c' l [Hc' _] Hl].
  - cbn [app nth]. replace (is_nul NUL) with true by reflexivity.
    rewrite andb_true_r. now destruct (Ascii.eqb _ _).
  - cbn [app nth]. apply is_nul_false in Hc'. rewrite Hc'.
    now rewrite andb_false_r.
Qed.

(** The answers [validate_input] can give. *)
Lemma validate_input_status input :
  fst (validate_input input) = EXIT_OK \/
  fst (validate_input input) = EXIT_PROGRAM \/
  fst (validate_input input) = EXIT_EMPTY_ERR \/
  fst (validate_input input) = EXIT_INVALID_INPUT.
Proof.
  unfold validate_input.
  destruct (input_overflow_check input); [auto|].
  destruct (is_nul _); [auto|]. destruct (_ && _); auto.
Qed.

(** A buffer is refused as too long exactly when its string holds no
    newline. *)
Lemma input_overflow_check_spec input :
  input_overflow_check input = true <-> ~ In newline (c_str input).
Proof.
  unfold input_overflow_check, c_str, char_at.
  induction input as [|c input IH]; cbn [strcspn_newline strlen nth firstn].
  - cbn. split; [tauto | reflexivity].
  - destruct (is_nul c) eqn:E1; cbn [orb].
    + apply is_nul_true in E1 as ->. cbn. split; [tauto | reflexivity].
    + destruct (Ascii.eqb_spec c newline) as [->|Hne]; cbn [nth firstn].
      * rewrite Ascii.eqb_refl. cbn. split; [discriminate | tauto].
      * rewrite IH. cbn [In]. tauto.
Qed.

Lemma validate_input_overflow input :
  input_overflow_check input = true ->
  validate_input input = (EXIT_INVALID_INPUT, input).
Proof. unfold validate_input. now intros ->. Qed.

(** ** The upper-casing loop *)

Lemma store_middle l c rest c' :
  store (l ++ c :: rest) (List.length l) c' = l ++ c' :: rest.
Proof. induction l as [|a l IH]; [reflexivity|]. cbn. now rewrite IH. Qed.

Lemma upper_loop_spec l : forall p rest,
  upper_loop (List.length l) (p ++ l ++ rest) (List.length p) =
  if forallb isalpha l then Some (p ++ map toupper l ++ rest) else None.
Proof.
  induction l as [|c l IH]; intros p rest; [reflexivity|].
  cbn [List.length upper_loop app forallb map].
  rewrite char_at_middle, store_middle.
  destruct (isalpha c); [|reflexivity]. cbn [negb andb].
  replace (p ++ toupper c :: l ++ rest) with ((p ++ [toupper c]) ++ l ++ rest)
    by (now rewrite <- app_assoc).
  replace (S (List.length p)) with (List.length (p ++ [toupper c]))
    by (rewrite length_app; cbn; lia).
  rewrite IH. now rewrite <- !app_assoc.
Qed.

Lemma toupper_alpha c : isalpha c = true -> toupper c <> NUL /\ isalpha (toupper c) = true.
Proof.
  destruct c as [[] [] [] [] [] [] [] []]; vm_compute; intros H;
    (discriminate H || (split; [discriminate | reflexivity])).
Qed.

Lemma map_toupper_no_nul l : forallb isalpha l = true -> no_nul (map toupper l).
Proof.
  induction l as [|c l IH]; cbn [forallb map]; intros H.
  - constructor.
  - apply andb_prop in H as [Hc Hl]. constructor.
    + now apply toupper_alpha.
    + now apply IH.
Qed.

(** On a buffer the loop either stops at a character that is no letter or
    puts the string in upper case. *)
Lemma upper_loop_buffer roman :
  upper_loop (strlen roman) roman 0 =
  if forallb isalpha (c_str roman)
  then Some (map toupper (c_str roman) ++ skipn (strlen roman) roman)
  else None.
Proof.
  rewrite <- (length_c_str roman) at 1.
  pose proof (upper_loop_spec (c_str roman) [] (skipn (strlen roman) roman)) as H.
  cbn [app List.length] in H. unfold c_str in H at 2.
  rewrite firstn_skipn in H. exact H.
Qed.

Lemma upper_loop_c_str roman roman' :
  upper_loop (strlen roman) roman 0 = Some roman' ->
  forallb isalpha (c_str roman) = true /\ c_str roman' = map toupper (c_str roman).
Proof.
  rewrite upper_loop_buffer.
  destruct (forallb isalpha (c_str roman)) eqn:E; [|discriminate].
  intros H. injection H as <-. split; [reflexivity|].
  pose proof (map_toupper_no_nul _ E) as Hn.
  destruct (c_str_split roman) as [Hs|[rest Hs]].
  - assert (skipn (strlen roman) roman = []) as ->.
    { rewrite Hs at 2. rewrite <- length_c_str. apply skipn_all. }
    rewrite app_nil_r. now apply c_str_of_no_nul.
  - assert (skipn (strlen roman) roman = NUL :: rest) as ->.
    { rewrite Hs at 2. rewrite <- length_c_str.
      rewrite skipn_app, skipn_all, Nat.sub_diag. reflexivity. }
    rewrite c_str_app_no_nul by exact Hn.
    change (c_str (NUL :: rest)) with (@nil ascii). apply app_nil_r.
Qed.

(** ** What [fgets] hands to [validate_input] *)

Lemma in_firstn (n : nat) (l : list ascii) c : In c (firstn n l) -> In c l.
Proof.
  revert l. induction n as [|n IH]; intros [|a l]; cbn [firstn In]; try tauto.
  intros [H|H]; [now left | right; now apply IH].
Qed.

Lemma Forall_firstn (P : ascii -> Prop) (n : nat) (l : list ascii) :
  Forall P l -> Forall P (firstn n l).
Proof.
  rewrite !Forall_forall. intros H c Hc. apply H. eapply in_firstn, Hc.
Qed.

Lemma fgets_read_cut n : forall s,
  Forall (fun c => c <> newline) (firstn n s) ->
  fgets_read n s = (firstn n s, skipn n s).
Proof.
  induction n as [|n IH]; intros [|c s]; cbn [firstn skipn fgets_read]; try reflexivity.
  intros H. inversion H as [|? ? Hc Hs]; subst.
  apply Ascii.eqb_neq in Hc. rewrite Hc. now rewrite IH.
Qed.

(** What was read is what is gone from [stdin], and a newline can only be
    its last character. *)
Lemma fgets_read_inv n : forall s buf rest,
  fgets_read n s = (buf, rest) ->
  s = buf ++ rest /\
  (Forall (fun c => c <> newline) buf \/
   exists l, buf = l ++ [newline] /\ Forall (fun c => c <> newline) l).
Proof.
  induction n as [|n IH]; intros s buf rest H.
  - cbn in H. injection H as <- <-. split; [reflexivity | left; constructor].
  - destruct s as [|c s]; cbn [fgets_read] in H.
    + injection H as <- <-. split; [reflexivity | left; constructor].
    + destruct (Ascii.eqb_spec c newline) as [->|Hc].
      * injection H as <- <-. split; [reflexivity|]. right. exists []. split; [reflexivity | constructor].
      * destruct (fgets_read n s) as [b r] eqn:E. injection H as <- <-.
        destruct (IH _ _ _ E) as [-> [Hb|(l & -> & Hl)]].
        -- split; [reflexivity | left; now constructor].
        -- split; [reflexivity|]. right. exists (c :: l).
           split; [reflexivity | now constructor].
Qed.

Lemma in_c_str_in s c : In c (c_str s) -> In c s.
Proof. apply in_firstn. Qed.

(** A buffer filled by [fgets] that passes the overflow check is a line
    of text followed by its newline. *)
Lemma fgets_read_line_inv n s buf rest :
  fgets_read n s = (buf, rest) ->
  input_overflow_check buf = false ->
  exists l, line_text l /\ buf = l ++ [newline] /\ s = l ++ newline :: rest.
Proof.
  intros H Ho. apply fgets_read_inv in H as [-> Hbuf].
  assert (Hin : In newline (c_str buf)).
  { destruct (in_dec ascii_dec newline (c_str buf)) as [Hin|Hnot]; [exact Hin|].
    apply input_overflow_check_spec in Hnot. congruence. }
  destruct Hbuf as [Hb|(l & -> & Hl)].
  - rewrite Forall_forall in Hb. apply in_c_str_in in Hin. now elim (Hb _ Hin).
  - exists l. rewrite <- app_assoc. cbn [app]. repeat split.
    destruct (c_str_split l) as [Hs|[t Hs]].
    + pose proof (c_str_no_nul l) as Hn. rewrite <- Hs in Hn.
      unfold line_text, no_nul in *. rewrite Forall_forall in *.
      intros c Hc. split; auto.
    + exfalso. rewrite Hs, <- app_assoc in Hin. cbn [app] in Hin.
      rewrite c_str_app_nul in Hin. apply in_c_str_in, in_c_str_in in Hin.
      rewrite Forall_forall in Hl. now elim (Hl _ Hin).
Qed.

(** ** [roman_to_int] on a line *)

Lemma roman_symbol_toupper c :
  roman_symbol (toupper c) ->
  c <> NUL /\ c <> newline /\ isalpha c = true /\ Ascii.eqb (toupper c) "Q" = false.
Proof.
  unfold roman_symbol, alphabet. cbn [lit list_ascii_of_string In].
  destruct c as [[] [] [] [] [] [] [] []]; vm_compute;
    intros H; repeat split; try discriminate;
    repeat match goal with
           | H : _ \/ _ |- _ => destruct H as [H|H]; try discriminate H
           | H : False |- _ => destruct H
           end.
Qed.

(** The letters of a numeral in either case make up a line of text that
    is no request to quit. *)
Lemma numeral_line l :
  Forall roman_symbol (map toupper l) ->
  line_text l /\ forallb isalpha l = true /\
  (forall c, l = [c] -> Ascii.eqb (toupper c) "Q" = false).
Proof.
  intros H. repeat split.
  - unfold line_text. rewrite Forall_forall in *. intros c Hc.
    destruct (roman_symbol_toupper c) as (H1 & H2 & _); [|auto].
    apply H, in_map, Hc.
  - apply forallb_forall. intros c Hc. rewrite Forall_forall in H.
    now destruct (roman_symbol_toupper c (H _ (in_map _ _ _ Hc))) as (_ & _ & H3 & _).
  - intros c ->. rewrite Forall_forall in H.
    apply (roman_symbol_toupper c). apply H. now left.
Qed.

Lemma validate_roman_symbols s : validate_roman s = true -> Forall roman_symbol (c_str s).
Proof.
  intros H. apply Forall_forall. intros c Hc.
  apply in_c_str in Hc as (j & Hj & <-). apply roman_value_symbol.
  unfold validate_roman in H. eapply validate_loop_symbols; [exact H | lia].
Qed.

Lemma emit_output e w : output (emit e w) = output w ++ [e].
Proof. reflexivity. Qed.

Lemma emit_stdin e w : stdin (emit e w) = stdin w.
Proof. reflexivity. Qed.

(** A line that spells, in either case, a numeral the scan accepts is
    read whole and its value printed. *)
Lemma roman_to_int_numeral use_regex l rest out :
  l <> [] -> validate_roman (map toupper l) = true ->
  Forall roman_symbol (map toupper l) ->
  roman_to_int use_regex (mk_world (l ++ newline :: rest) out) =
  (EXIT_OK,
   mk_world rest (out ++ [Out_prompt_roman; Out_int (roman_converter (map toupper l))])).
Proof.
  intros Hne Hv Hs. destruct (numeral_line l Hs) as (Hl & Ha & Hq).
  assert (Hlen : (List.length l <= 15)%nat).
  { rewrite <- (length_map toupper). apply validate_roman_length; [|exact Hv].
    now apply roman_symbol_no_nul. }
  unfold roman_to_int, emit. cbn [stdin output].
  rewrite fgets_line by
    (try (now apply line_text_no_newline); unfold MAX_ROMAN_LENGTH;
     change (Z.to_nat 20) with 20%nat; lia).
  unfold validate_input_io.
  rewrite (validate_input_line l [] Hl).
  assert (Ho : input_overflow_check (l ++ [newline]) = false).
  { unfold input_overflow_check.
    now rewrite strcspn_newline_line, char_at_middle, Ascii.eqb_refl. }
  rewrite Ho.
  assert (Hst : match l with
                | [] => EXIT_EMPTY_ERR
                | [c] => if Ascii.eqb (toupper c) "Q" then EXIT_PROGRAM else EXIT_OK
                | _ :: _ :: _ => EXIT_OK
                end = EXIT_OK).
  { destruct l as [|c [|c' l']]; [now elim Hne | now rewrite (Hq c eq_refl) | reflexivity]. }
  rewrite Hst. cbn [Z.eqb EXIT_OK negb].
  assert (Hc : c_str (l ++ [NUL]) = l) by (rewrite c_str_app_nul; now apply c_str_of_no_nul, line_text_no_nul).
  rewrite upper_loop_buffer, Hc, Ha.
  set (roman' := map toupper l ++ skipn (strlen (l ++ [NUL])) (l ++ [NUL])).
  assert (Hc' : c_str roman' = map toupper l).
  { destruct (upper_loop_c_str (l ++ [NUL]) roman') as [_ Hc'].
    - rewrite upper_loop_buffer, Hc, Ha. reflexivity.
    - now rewrite Hc' , Hc. }
  assert (Hv' : validate_roman roman' = true)
    by now rewrite <- validate_roman_c_str, Hc'.
  assert (Hvalid : (if use_regex then regex_roman roman' else validate_roman roman') = true).
  { destruct use_regex; [rewrite <- validate_regex_agree_all|]; exact Hv'. }
  rewrite Hvalid. cbn [negb].
  rewrite <- (roman_converter_c_str roman'), Hc'. cbn [stdin output].
  now rewrite <- app_assoc.
Qed.

Lemma c_str_line l : line_text l -> c_str (l ++ [NUL]) = l.
Proof.
  intros Hl. rewrite c_str_app_nul. now apply c_str_of_no_nul, line_text_no_nul.
Qed.

(** Success means that a whole line was read which spells, in either
    case, a numeral the scan accepts, and that its value was printed. *)
Lemma roman_to_int_ok_inv use_regex w w' :
  roman_to_int use_regex w = (EXIT_OK, w') ->
  exists l,
    stdin w = l ++ newline :: stdin w' /\ l <> [] /\
    no_nul (map toupper l) /\ validate_roman (map toupper l) = true /\
    output w' = output w ++ [Out_prompt_roman; Out_int (roman_converter (map toupper l))].
Proof.
  unfold roman_to_int, fgets, emit. cbn [stdin output].
  destruct (stdin w) as [|c0 s0] eqn:Es; [discriminate|]. rewrite <- Es. clear c0 s0 Es.
  destruct (fgets_read _ (stdin w)) as [buf rest] eqn:Ef.
  unfold validate_input_io.
  destruct (input_overflow_check buf) eqn:Ho.
  { rewrite (validate_input_overflow buf Ho). discriminate. }
  destruct (fgets_read_line_inv _ _ _ _ Ef Ho) as (l & Hl & -> & Hs).
  rewrite (validate_input_line l [] Hl).
  set (status := match l with
                 | [] => EXIT_EMPTY_ERR
                 | [c] => if Ascii.eqb (toupper c) "Q" then EXIT_PROGRAM else EXIT_OK
                 | _ :: _ :: _ => EXIT_OK
                 end).
  destruct (Z.eqb_spec status EXIT_OK) as [Est|Est]; cbn [negb].
  2:{ destruct (status =? EXIT_PROGRAM); intros H; injection H as H _; now elim Est. }
  rewrite upper_loop_buffer, (c_str_line l Hl).
  destruct (forallb isalpha l) eqn:Ha; [|discriminate].
  set (roman' := map toupper l ++ skipn (strlen (l ++ [NUL])) (l ++ [NUL])).
  assert (Hc' : c_str roman' = map toupper l).
  { destruct (upper_loop_c_str (l ++ [NUL]) roman') as [_ Hc'].
    - rewrite upper_loop_buffer, (c_str_line l Hl), Ha. reflexivity.
    - now rewrite Hc', (c_str_line l Hl). }
  set (valid := if use_regex then regex_roman roman' else validate_roman roman').
  assert (Hvv : valid = validate_roman roman').
  { unfold valid. destruct use_regex; [symmetry; apply validate_regex_agree_all | reflexivity]. }
  destruct valid eqn:Hvalid; cbn [negb]; [|discriminate].
  intros H. injection H as <-. cbn [stdin output].
  exists l. repeat split.
  - exact Hs.
  - intros ->. discriminate Est.
  - now apply map_toupper_no_nul.
  - now rewrite <- Hc', validate_roman_c_str.
  - now rewrite <- (roman_converter_c_str roman'), Hc', <- app_assoc.
Qed.

(** At end of file nothing is read and nothing changes but the output. *)
Lemma roman_to_int_eof use_regex w :
  stdin w = [] ->
  roman_to_int use_regex w =
  (EXIT_INPUT_ERR, mk_world [] (output w ++ [Out_prompt_roman; Err_input])).
Proof.
  intros Hs. unfold roman_to_int. rewrite fgets_eof by (now rewrite emit_stdin).
  unfold emit. cbn [stdin output]. now rewrite Hs, <- app_assoc.
Qed.

Lemma int_to_roman_eof w :
  stdin w = [] ->
  int_to_roman w =
  (EXIT_INPUT_ERR, mk_world [] (output w ++ [Out_prompt_int; Err_input])).
Proof.
  intros Hs. unfold int_to_roman. rewrite fgets_eof by (now rewrite emit_stdin).
  unfold emit. cbn [stdin output]. now rewrite Hs, <- app_assoc.
Qed.

(** The validation engine makes no difference. *)
Lemma roman_to_int_engine w : roman_to_int true w = roman_to_int false w.
Proof.
  unfold roman_to_int. destruct (fgets _ _) as [[buf|] w2]; [|reflexivity].
  destruct (validate_input_io buf w2) as [[status roman] w3].
  destruct (negb _); [reflexivity|].
  destruct (upper_loop _ _ _) as [roman'|]; [|reflexivity].
  now rewrite validate_regex_agree_all.
Qed.

(** A line too long for the buffer is refused and thrown away whole. *)
Lemma read_long_line size l rest out :
  2 <= size -> line_text l -> (Z.to_nat size - 1 <= List.length l)%nat ->
  exists buf w2,
    fgets size (mk_world (l ++ newline :: rest) out) = (Some buf, w2) /\
    validate_input_io buf w2 = (EXIT_INVALID_INPUT, buf, mk_world rest out).
Proof.
  intros Hsz Hl Hlen. set (n := (Z.to_nat size - 1)%nat) in *.
  assert (Hcut : firstn n (l ++ newline :: rest) = firstn n l).
  { rewrite firstn_app. replace (n - List.length l)%nat with 0%nat by lia.
    cbn [firstn]. apply app_nil_r. }
  assert (Hnn : Forall (fun c => c <> newline) (firstn n l))
    by (apply Forall_firstn; now apply line_text_no_newline).
  exists (firstn n l), (mk_world (skipn n l ++ newline :: rest) out). split.
  - unfold fgets. cbn [stdin output]. fold n.
    rewrite fgets_read_cut by (now rewrite Hcut). rewrite Hcut.
    rewrite skipn_app. replace (n - List.length l)%nat with 0%nat by lia.
    cbn [skipn]. destruct l as [|c l]; [|reflexivity].
    cbn [List.length] in Hlen. lia.
  - unfold validate_input_io.
    assert (Ho : input_overflow_check (firstn n l) = true).
    { apply input_overflow_check_spec. intros Hin. apply in_c_str_in in Hin.
      rewrite Forall_forall in Hnn. now elim (Hnn _ Hin). }
    rewrite Ho, (validate_input_overflow _ Ho). cbn [stdin output].
    rewrite drain_line_newline; [reflexivity|].
    rewrite Forall_forall. intros c Hc. apply line_text_no_newline in Hl.
    rewrite Forall_forall in Hl. apply Hl.
    rewrite <- (firstn_skipn n l). apply in_or_app. now right.
Qed.

Lemma roman_to_int_long_line use_regex l rest out :
  line_text l -> (19 <= List.length l)%nat ->
  roman_to_int use_regex (mk_world (l ++ newline :: rest) out) =
  (EXIT_INVALID_INPUT, mk_world rest (out ++ [Out_prompt_roman; Err_invalid_input])).
Proof.
  intros Hl Hlen. unfold roman_to_int, emit at 1. cbn [stdin output].
  destruct (read_long_line MAX_ROMAN_LENGTH l rest (out ++ [Out_prompt_roman]))
    as (buf & w2 & Hf & Hv);
    [unfold MAX_ROMAN_LENGTH; lia | exact Hl
     | unfold MAX_ROMAN_LENGTH; change (Z.to_nat 20) with 20%nat; lia|].
  rewrite Hf, Hv.
  cbv beta iota zeta delta [EXIT_INVALID_INPUT EXIT_OK EXIT_PROGRAM Z.eqb negb emit
                            stdin output].
  now rewrite <- app_assoc.
Qed.

(** ** [int_to_roman] *)

Lemma fgets_output size w r w' : fgets size w = (r, w') -> output w' = output w.
Proof.
  unfold fgets. destruct (stdin w); [now intros [= <- <-]|].
  destruct (fgets_read _ _). now intros [= <- <-].
Qed.

Lemma validate_input_io_output buf w status buffer w' :
  validate_input_io buf w = (status, buffer, w') ->
  output w' = output w /\ (List.length (stdin w') <= List.length (stdin w))%nat /\
  status = fst (validate_input buf).
Proof.
  unfold validate_input_io. destruct (validate_input buf) as [s b].
  destruct (input_overflow_check buf); intros [= <- <- <-]; cbn [stdin output fst];
    repeat split; try lia. apply drain_line_shorter.
Qed.

(** Success means that the numeral of an integer of the range was
    printed. *)
Lemma int_to_roman_ok_inv w w' :
  int_to_roman w = (EXIT_OK, w') ->
  exists n r,
    ROMAN_MIN <= n <= ROMAN_MAX /\ int_converter n = Some r /\
    output w' = output w ++ [Out_prompt_int; Out_roman r].
Proof.
  unfold int_to_roman.
  destruct (fgets _ _) as [[buf|] w2] eqn:Ef; [|discriminate].
  apply fgets_output in Ef. rewrite emit_output in Ef.
  destruct (validate_input_io buf w2) as [[status input] w3] eqn:Ev.
  apply validate_input_io_output in Ev as (Ho & _ & _).
  destruct (Z.eqb_spec status EXIT_OK) as [->|Hst]; cbn [negb].
  2:{ destruct (status =? EXIT_PROGRAM); intros [= H _]; now elim Hst. }
  destruct (strtol input) as [[num ptr] erange].
  destruct (_ || erange); [discriminate|].
  destruct (Z.gtb_spec num ROMAN_MAX); cbn [orb]; [discriminate|].
  destruct (Z.ltb_spec num ROMAN_MIN); [discriminate|].
  destruct (int_converter num) as [r|] eqn:Er; [|discriminate].
  intros [= <-]. exists num, r. repeat split; try lia; try exact Er.
  now rewrite emit_output, Ho, Ef, <- app_assoc.
Qed.

Lemma decimal_checked : forallb decimal_ok range = true.
Proof. vm_compute. reflexivity. Qed.

Lemma isdigit_text c :
  isdigit c = true -> c <> NUL /\ c <> newline /\ Ascii.eqb (toupper c) "Q" = false.
Proof.
  destruct c as [[] [] [] [] [] [] [] []]; vm_compute; intros H;
    (discriminate H || (repeat split; discriminate)).
Qed.

Lemma decimal_spec n :
  ROMAN_MIN <= n <= ROMAN_MAX ->
  line_text (decimal n) /\
  (1 <= List.length (decimal n) <= 8)%nat /\
  (forall c, decimal n = [c] -> Ascii.eqb (toupper c) "Q" = false) /\
  strtol (decimal n ++ [NUL]) = (n, List.length (decimal n), false).
Proof.
  intros Hn. pose proof decimal_checked as H. rewrite forallb_forall in H.
  specialize (H n (in_range n Hn)). unfold decimal_ok in H.
  apply andb_prop in H as [H Hs]. apply andb_prop in H as [H H8].
  apply andb_prop in H as [Hd H1]. rewrite forallb_forall in Hd.
  apply Nat.leb_le in H1, H8. repeat split; try assumption.
  - unfold line_text. apply Forall_forall. intros c Hc.
    destruct (isdigit_text c (Hd c Hc)) as (? & ? & _). now split.
  - intros c Hc. apply (isdigit_text c). apply Hd. rewrite Hc. now left.
  - destruct (strtol _) as [[v ptr] erange].
    apply andb_prop in Hs as [Hs He]. apply andb_prop in Hs as [Hv Hp].
    apply Z.eqb_eq in Hv. apply Nat.eqb_eq in Hp. apply negb_true_iff in He.
    congruence.
Qed.

(** A line holding the decimal digits of an integer of the range is read
    whole and the numeral printed. *)
Lemma int_to_roman_decimal n rest out :
  ROMAN_MIN <= n <= ROMAN_MAX ->
  exists r,
    int_converter n = Some r /\
    int_to_roman (mk_world (decimal n ++ newline :: rest) out) =
    (EXIT_OK, mk_world rest (out ++ [Out_prompt_int; Out_roman r])).
Proof.
  intros Hn. destruct (decimal_spec n Hn) as (Hl & Hlen & Hq & Hs).
  destruct (int_converter_total n) as [r Hr]. exists r. split; [exact Hr|].
  unfold int_to_roman, emit at 1. cbn [stdin output].
  rewrite fgets_line by
    (try (now apply line_text_no_newline); unfold MAX_INT_LENGTH;
     change (Z.to_nat 10) with 10%nat; lia).
  unfold validate_input_io.
  rewrite (validate_input_line (decimal n) [] Hl).
  assert (Ho : input_overflow_check (decimal n ++ [newline]) = false).
  { unfold input_overflow_check.
    now rewrite strcspn_newline_line, char_at_middle, Ascii.eqb_refl. }
  rewrite Ho.
  assert (Hst : match decimal n with
                | [] => EXIT_EMPTY_ERR
                | [c] => if Ascii.eqb (toupper c) "Q" then EXIT_PROGRAM else EXIT_OK
                | _ :: _ :: _ => EXIT_OK
                end = EXIT_OK).
  { destruct (decimal n) as [|c [|c' l']];
      [cbn in Hlen; lia | now rewrite (Hq c eq_refl) | reflexivity]. }
  rewrite Hst, Hs, char_at_middle. cbn [Z.eqb EXIT_OK negb orb].
  replace (is_nul NUL) with true by reflexivity. cbn [negb].
  destruct (Z.gtb_spec n ROMAN_MAX); [lia|].
  destruct (Z.ltb_spec n ROMAN_MIN); [lia|]. cbn [orb].
  rewrite Hr. unfold emit. cbn [stdin output]. now rewrite <- app_assoc.
Qed.

(** ** [main] *)

Lemma submenu_once fuel convert w :
  submenu (S fuel) convert true w = Some (convert w).
Proof. cbn [submenu]. destruct (convert w). reflexivity. Qed.

Lemma submenu_ext fuel (f g : world -> Z * world) test_mode :
  (forall w, f w = g w) ->
  forall w, submenu fuel f test_mode w = submenu fuel g test_mode w.
Proof.
  intros Hfg. induction fuel as [|fuel IH]; intros w; [reflexivity|].
  cbn [submenu]. rewrite Hfg. destruct (g w) as [status w'].
  destruct (_ && _); [apply IH | reflexivity].
Qed.

Lemma main_loop_engine fuel test_mode : forall w,
  main_loop fuel test_mode true w = main_loop fuel test_mode false w.
Proof.
  induction fuel as [|fuel IH]; intros w; [reflexivity|].
  cbn [main_loop]. destruct (fgets _ _) as [[buf|] w2]; [|reflexivity].
  destruct (validate_input_io buf w2) as [[status buffer] w3].
  destruct (negb _); [reflexivity|].
  rewrite (submenu_ext fuel _ _ test_mode roman_to_int_engine).
  destruct (streq buffer (lit "1")).
  - destruct (submenu fuel (roman_to_int false) test_mode w3) as [[st w4]|];
      [|reflexivity].
    destruct test_mode; [reflexivity | apply IH].
  - destruct (streq buffer (lit "2")); [|apply IH].
    destruct (submenu fuel int_to_roman test_mode w3) as [[st w4]|]; [|reflexivity].
    destruct test_mode; [reflexivity | apply IH].
Qed.

(** In test mode every pass through the menu uses up input. *)
Lemma main_loop_test_terminates fuel use_regex : forall w,
  (List.length (stdin w) < fuel)%nat ->
  exists result, main_loop fuel true use_regex w = Some result.
Proof.
  induction fuel as [|fuel IH]; intros w Hfuel; [lia|].
  cbn [main_loop]. destruct (fgets _ w) as [[buf|] w2] eqn:Ef; [|eauto].
  apply fgets_shorter in Ef as [Hlt _]; [|unfold MAIN_BUFFER_LENGTH; lia].
  destruct (validate_input_io buf w2) as [[status buffer] w3] eqn:Ev.
  apply validate_input_io_output in Ev as (_ & Hle & _).
  destruct (negb _); [destruct (_ =? _); eauto|].
  destruct fuel as [|fuel']; [lia|].
  destruct (streq buffer (lit "1")); [rewrite submenu_once; destruct (roman_to_int _ _); eauto|].
  destruct (streq buffer (lit "2")); [rewrite submenu_once; destruct (int_to_roman _); eauto|].
  apply IH. rewrite emit_stdin. lia.
Qed.

(** The interactive program only ever returns from its menu. *)
Lemma main_loop_interactive_status fuel use_regex : forall w status w',
  main_loop fuel false use_regex w = Some (status, w') ->
  status = EXIT_PROGRAM \/ status = EXIT_INPUT_ERR \/
  status = EXIT_EMPTY_ERR \/ status = EXIT_INVALID_INPUT.
Proof.
  induction fuel as [|fuel IH]; intros w status w'; [discriminate|].
  cbn [main_loop]. destruct (fgets _ _) as [[buf|] w2]; [|intros [= <- _]; auto].
  destruct (validate_input_io buf w2) as [[vs buffer] w3] eqn:Ev.
  apply validate_input_io_output in Ev as (_ & _ & Hvs).
  destruct (Z.eqb_spec vs EXIT_OK) as [->|Hne]; cbn [negb].
  - destruct (streq buffer (lit "1")).
    + destruct (submenu _ _ _ _) as [[st w4]|]; [apply IH | discriminate].
    + destruct (streq buffer (lit "2")); [|apply IH].
      destruct (submenu _ _ _ _) as [[st w4]|]; [apply IH | discriminate].
  - destruct (Z.eqb_spec vs EXIT_PROGRAM) as [->|Hnp]; intros [= <- _]; [auto|].
    destruct (validate_input_status buf) as [H|[H|[H|H]]]; rewrite <- H in *; auto;
      congruence.
Qed.

(** A conversion loop that has met the end of input never leaves it. *)
Lemma submenu_eof fuel (convert : world -> Z * world) :
  (forall w, stdin w = [] ->
     fst (convert w) = EXIT_INPUT_ERR /\ stdin (snd (convert w)) = []) ->
  forall w, stdin w = [] -> submenu fuel convert false w = None.
Proof.
  intros Hc. induction fuel as [|fuel IH]; intros w Hw; [reflexivity|].
  cbn [submenu]. destruct (Hc w Hw) as [H1 H2].
  destruct (convert w) as [status w1]. cbn [fst snd] in H1, H2. subst status.
  cbn. now apply IH.
Qed.

(** ** Numerals and their values *)

(** A numeral of an integer of the range is free of NUL, accepted, made of
    the seven symbols and not empty. *)
Lemma numeral_facts n r :
  ROMAN_MIN <= n <= ROMAN_MAX -> int_converter n = Some r ->
  r <> [] /\ no_nul r /\ Forall roman_symbol r /\
  validate_roman r = true /\ roman_converter r = n.
Proof.
  intros Hn Hr. destruct (int_converter_round_trip n Hn) as (r' & Hr' & Hv & Hrt & _).
  assert (r' = r) as -> by congruence.
  assert (Hne : c_str r <> []).
  { intros E. rewrite <- roman_converter_c_str, E in Hrt. cbn in Hrt.
    unfold ROMAN_MIN in Hn. lia. }
  assert (Hc : c_str r = r).
  { pose proof Hv as Hv'. rewrite <- validate_roman_c_str in Hv'.
    destruct (validate_roman_canonical _ (c_str_no_nul r) Hne Hv') as [Hc _].
    apply canonical_spec in Hc as [_ Hc].
    rewrite roman_converter_c_str, Hrt, Hr in Hc. congruence. }
  repeat split; try assumption.
  - now rewrite <- Hc.
  - rewrite <- Hc. apply c_str_no_nul.
  - rewrite <- Hc. now apply validate_roman_symbols.
Qed.

Lemma valid_subtractive_pair a b :
  is_valid_subtractive (roman_value a) (roman_value b) = true ->
  In [a; b] (map lit ["IV"; "IX"; "XL"; "XC"; "CD"; "CM"]%string).
Proof.
  unfold roman_value.
  repeat match goal with
         | |- context [Ascii.eqb a ?x] => destruct (Ascii.eqb_spec a x); [subst a|]
         end;
    repeat match goal with
           | |- context [Ascii.eqb b ?x] => destruct (Ascii.eqb_spec b x); [subst b|]
           end;
    cbn; intros H; try discriminate H; auto 10.
Qed.

Lemma streq_spec a b : streq a b = true <-> c_str a = c_str b.
Proof.
  unfold streq, list_ascii_eqb.
  destruct (list_eq_dec ascii_dec (c_str a) (c_str b)); split; congruence.
Qed.

(** Choosing a conversion at the menu enters its loop. *)
Lemma main_loop_choose_1 fuel test_mode use_regex rest out :
  main_loop (S fuel) test_mode use_regex (mk_world (lit "1" ++ newline :: rest) out) =
  match submenu fuel (roman_to_int use_regex) test_mode
          (mk_world rest (if test_mode then out else out ++ [Out_menu])) with
  | None => None
  | Some (status, w4) =>
      if test_mode then Some (status, w4)
      else main_loop fuel test_mode use_regex w4
  end.
Proof.
  cbn [main_loop].
  assert (Hf : forall o, fgets MAIN_BUFFER_LENGTH (mk_world (lit "1" ++ newline :: rest) o)
                         = (Some (lit "1" ++ [newline]), mk_world rest o)).
  { intros o. apply fgets_line; [repeat constructor; discriminate | cbn; lia]. }
  destruct test_mode; unfold emit; cbn [stdin output]; rewrite Hf; reflexivity.
Qed.

Lemma main_loop_choose_2 fuel test_mode use_regex rest out :
  main_loop (S fuel) test_mode use_regex (mk_world (lit "2" ++ newline :: rest) out) =
  match submenu fuel int_to_roman test_mode
          (mk_world rest (if test_mode then out else out ++ [Out_menu])) with
  | None => None
  | Some (status, w4) =>
      if test_mode then Some (status, w4)
      else main_loop fuel test_mode use_regex w4
  end.
Proof.
  cbn [main_loop].
  assert (Hf : forall o, fgets MAIN_BUFFER_LENGTH (mk_world (lit "2" ++ newline :: rest) o)
                         = (Some (lit "2" ++ [newline]), mk_world rest o)).
  { intros o. apply fgets_line; [repeat constructor; discriminate | cbn; lia]. }
  destruct test_mode; unfold emit; cbn [stdin output]; rewrite Hf; reflexivity.
Qed.

Lemma roman_to_int_eof_step use_regex w :
  stdin w = [] ->
  fst (roman_to_int use_regex w) = EXIT_INPUT_ERR /\
  stdin (snd (roman_to_int use_regex w)) = [].
Proof. intros H. now rewrite roman_to_int_eof. Qed.

Lemma int_to_roman_eof_step w :
  stdin w = [] ->
  fst (int_to_roman w) = EXIT_INPUT_ERR /\ stdin (snd (int_to_roman w)) = [].
Proof. intros H. now rewrite int_to_roman_eof. Qed.

(** ** Thousands first *)

Lemma int_converter_for_S n fuel i num roman :
  int_converter_for (S n) fuel i num roman =
  if num >? 0 then
    match int_converter_while fuel (nth i values 0) (nth i symbols []) num roman with
    | Some (num', roman') => int_converter_for n fuel (S i) num' roman'
    | None => None
    end
  else Some (num, roman).
Proof. reflexivity. Qed.

(** The first table entry takes the thousands away, one M each. *)
Lemma int_converter_while_thousands q : forall fuel r roman,
  0 <= r < 1000 -> (q < fuel)%nat ->
  int_converter_while fuel 1000 (lit "M") (1000 * Z.of_nat q + r) roman
  = Some (r, roman ++ List.repeat "M"%char q).
Proof.
  induction q as [|q IH]; intros fuel r roman Hr Hfuel.
  - destruct fuel as [|fuel]; [lia|]. cbn [int_converter_while].
    rewrite Z.geb_leb. destruct (Z.leb_spec 1000 (1000 * Z.of_nat 0 + r)); [lia|].
    cbn [List.repeat]. rewrite app_nil_r.
    now replace (1000 * Z.of_nat 0 + r) with r by lia.
  - destruct fuel as [|fuel]; [lia|]. cbn [int_converter_while].
    rewrite Z.geb_leb. destruct (Z.leb_spec 1000 (1000 * Z.of_nat (S q) + r)); [|lia].
    replace (1000 * Z.of_nat (S q) + r - 1000) with (1000 * Z.of_nat q + r) by lia.
    rewrite IH by (lia || assumption). cbn [List.repeat lit list_ascii_of_string].
    now rewrite <- app_assoc.
Qed.

(** What is already in the buffer stays in front. *)
Lemma int_converter_while_front fuel v sym p : forall num roman,
  int_converter_while fuel v sym num (p ++ roman) =
  match int_converter_while fuel v sym num roman with
  | Some (num', roman') => Some (num', p ++ roman')
  | None => None
  end.
Proof.
  induction fuel as [|fuel IH]; intros num roman; cbn [int_converter_while];
    destruct (num >=? v); try reflexivity.
  now rewrite <- app_assoc, IH.
Qed.

Lemma int_converter_for_front n fuel p : forall i num roman,
  int_converter_for n fuel i num (p ++ roman) =
  match int_converter_for n fuel i num roman with
  | Some (num', roman') => Some (num', p ++ roman')
  | None => None
  end.
Proof.
  induction n as [|n IH]; intros i num roman; cbn [int_converter_for]; [reflexivity|].
  destruct (num >? 0); [|reflexivity].
  rewrite int_converter_while_front.
  destruct (int_converter_while fuel _ _ num roman) as [[num1 roman1]|]; [|reflexivity].
  apply IH.
Qed.

(** More fuel does not change a result. *)
Lemma int_converter_while_fuel f1 v sym : forall f2 num roman x y,
  int_converter_while f1 v sym num roman = Some x ->
  int_converter_while f2 v sym num roman = Some y -> x = y.
Proof.
  induction f1 as [|f1 IH]; intros f2 num roman x y;
    destruct f2 as [|f2]; cbn [int_converter_while];
    destruct (num >=? v); try discriminate; try congruence.
  apply IH.
Qed.

Lemma int_converter_for_fuel n f1 f2 : forall i num roman x y,
  int_converter_for n f1 i num roman = Some x ->
  int_converter_for n f2 i num roman = Some y -> x = y.
Proof.
  induction n as [|n IH]; intros i num roman x y; cbn [int_converter_for];
    [congruence|].
  destruct (num >? 0); [|congruence].
  destruct (int_converter_while f1 _ _ num roman) as [[n1 r1]|] eqn:E1; [|discriminate].
  destruct (int_converter_while f2 _ _ num roman) as [[n2 r2]|] eqn:E2; [|discriminate].
  pose proof (int_converter_while_fuel _ _ _ _ _ _ _ _ E1 E2) as [= <- <-].
  apply IH.
Qed.

(** The numeral of [1000 q + r] is [q] times M before the numeral of [r]. *)
Lemma int_converter_thousands q r r' :
  0 <= r < 1000 -> int_converter r = Some r' ->
  int_converter (1000 * Z.of_nat q + r) = Some (List.repeat "M"%char q ++ r').
Proof.
  intros Hr Hr'. destruct q as [|q].
  { cbn [List.repeat app]. now replace (1000 * Z.of_nat 0 + r) with r by lia. }
  set (n := 1000 * Z.of_nat (S q) + r).
  unfold int_converter in *. set (F := S (Z.to_nat n)).
  change (List.length values) with 13%nat in *.
  rewrite int_converter_for_S. destruct (Z.gtb_spec n 0) as [_|Hn]; [|unfold n in Hn; lia].
  change (nth 0 values 0) with 1000. change (nth 0 symbols []) with (lit "M").
  unfold n at 1. rewrite int_converter_while_thousands by (unfold F, n; lia).
  cbn [app]. rewrite <- (app_nil_r (List.repeat "M"%char (S q))) at 1.
  rewrite int_converter_for_front.
  destruct (int_converter_for_total 12 F 1 r []) as (num1 & roman1 & H1);
    [cbn; lia | unfold F, n; lia |].
  rewrite H1. rewrite int_converter_for_S in Hr'.
  destruct (Z.gtb_spec r 0) as [Hpos|Hzero].
  - change (nth 0 values 0) with 1000 in Hr'. change (nth 0 symbols []) with (lit "M") in Hr'.
    replace r with (1000 * Z.of_nat 0 + r) in Hr' at 2 by lia.
    rewrite int_converter_while_thousands in Hr' by lia. cbn [app List.repeat] in Hr'.
    destruct (int_converter_for 12 (S (Z.to_nat r)) 1 r []) as [[num2 roman2]|] eqn:H2;
      [|discriminate].
    injection Hr' as <-.
    now pose proof (int_converter_for_fuel _ _ _ _ _ _ _ _ H1 H2) as [= <- <-].
  - injection Hr' as <-. assert (r = 0) as -> by lia.
    cbn in H1. now injection H1 as <- <-.
Qed.

Lemma int_converter_split n :
  0 <= n ->
  exists r',
    int_converter (n mod 1000) = Some r' /\
    int_converter n = Some (List.repeat "M"%char (Z.to_nat (n / 1000)) ++ r').
Proof.
  intros Hn. destruct (int_converter_total (n mod 1000)) as [r' Hr'].
  exists r'. split; [exact Hr'|].
  pose proof (Z.mod_pos_bound n 1000 ltac:(lia)) as Hm.
  pose proof (Z.div_pos n 1000 Hn ltac:(lia)) as Hd.
  rewrite <- (int_converter_thousands _ _ _ Hm Hr'). f_equal.
  rewrite Z2Nat.id by exact Hd. apply Z.div_mod. lia.
Qed.

Lemma short_numeral_checked :
  forallb short_numeral (map Z.of_nat (seq 0 1000)) = true.
Proof. vm_compute. reflexivity. Qed.

Lemma short_numeral_spec r r' :
  0 <= r < 1000 -> int_converter r = Some r' ->
  (List.length r' <= 12)%nat /\ (r <> 888 -> (List.length r' <= 11)%nat).
Proof.
  intros Hr Hr'. pose proof short_numeral_checked as Hall.
  rewrite forallb_forall in Hall.
  assert (Hin : In r (map Z.of_nat (seq 0 1000))).
  { apply in_map_iff. exists (Z.to_nat r). split; [lia|]. apply in_seq. lia. }
  specialize (Hall r Hin). unfold short_numeral in Hall. rewrite Hr' in Hall.
  apply andb_prop in Hall as [H12 H]. apply Nat.leb_le in H12. split; [exact H12|].
  intros Hne. apply orb_prop in H as [H|H].
  - apply Nat.ltb_lt in H. lia.
  - apply Z.eqb_eq in H. now elim Hne.
Qed.

(** ** The evaluator on a leading M *)

Lemma roman_converter_body_shift c s i total :
  roman_converter_body (c :: s) (S i) total = roman_converter_body s i total.
Proof. reflexivity. Qed.

Lemma roman_converter_loop_shift c s n : forall i total,
  roman_converter_loop n (c :: s) (S i) total = roman_converter_loop n s i total.
Proof.
  induction n as [|n IH]; intros i total; cbn [roman_converter_loop]; [reflexivity|].
  now rewrite roman_converter_body_shift, IH.
Qed.

Lemma roman_converter_body_add roman i total a :
  roman_converter_body roman i (total + a) = roman_converter_body roman i total + a.
Proof. unfold roman_converter_body. destruct (_ <? _); lia. Qed.

Lemma roman_converter_loop_add roman n : forall i total a,
  roman_converter_loop n roman i (total + a) = roman_converter_loop n roman i total + a.
Proof.
  induction n as [|n IH]; intros i total a; cbn [roman_converter_loop]; [reflexivity|].
  now rewrite roman_converter_body_add, IH.
Qed.

Lemma roman_converter_M s : roman_converter ("M"%char :: s) = 1000 + roman_converter s.
Proof.
  unfold roman_converter. cbn [strlen]. change (is_nul "M") with false.
  cbn [roman_converter_loop]. rewrite roman_converter_loop_shift.
  assert (Hb : roman_converter_body ("M"%char :: s) 0 0 = 0 + 1000).
  { unfold roman_converter_body. rewrite roman_value_nul_next.
    change (roman_value (char_at ("M"%char :: s) 0)) with 1000.
    pose proof (roman_value_range (char_at ("M"%char :: s) (0 + 1))).
    destruct (Z.ltb_spec 1000 (roman_value (char_at ("M"%char :: s) (0 + 1)))); lia. }
  rewrite Hb, roman_converter_loop_add. lia.
Qed.

Lemma roman_converter_repeat_M q s :
  roman_converter (List.repeat "M"%char q ++ s) = 1000 * Z.of_nat q + roman_converter s.
Proof.
  induction q as [|q IH]; [cbn [List.repeat app]; lia|].
  cbn [List.repeat app]. rewrite roman_converter_M, IH. lia.
Qed.

Lemma validate_roman_prefix_any p q :
  validate_roman (p ++ q) = true -> validate_roman p = true.
Proof.
  intros H. destruct (c_str_split p) as [Hp|[rest Hp]].
  - assert (Hn : no_nul p) by (rewrite Hp; apply c_str_no_nul).
    rewrite <- validate_roman_c_str, (c_str_app_no_nul _ _ Hn) in H.
    eapply validate_roman_app; [|exact H].
    apply Forall_app. split; [exact Hn | apply c_str_no_nul].
  - rewrite <- validate_roman_c_str. rewrite <- validate_roman_c_str in H.
    rewrite Hp, <- app_assoc in H. cbn [app] in H.
    now rewrite c_str_app_nul, (c_str_of_no_nul _ (c_str_no_nul p)) in H.
Qed.

(** ** What reaches [strtol] *)

Lemma digit_value_range c : isdigit c = true -> 0 <= digit_value c <= 9.
Proof.
  unfold isdigit, digit_value. intros H. apply andb_prop in H as [H1 H2].
  apply Nat.leb_le in H1, H2. lia.
Qed.

Lemma read_digits_bound s : forall acc v k,
  read_digits s acc = (v, k) -> 0 <= acc ->
  acc <= v < (acc + 1) * 10 ^ Z.of_nat k /\ (k <= List.length s)%nat.
Proof.
  induction s as [|c s IH]; intros acc v k; cbn [read_digits List.length].
  - intros [= <- <-] Hacc. cbn. lia.
  - destruct (isdigit c) eqn:Ed; [|intros [= <- <-] Hacc; cbn; lia].
    destruct (read_digits s (10 * acc + digit_value c)) as [v' k'] eqn:E.
    intros [= <- <-] Hacc. pose proof (digit_value_range c Ed) as Hd.
    destruct (IH _ _ _ E) as [[Hlo Hhi] Hk]; [lia|].
    rewrite Nat2Z.inj_succ, Z.pow_succ_r by lia.
    assert (0 < 10 ^ Z.of_nat k') by (apply Z.pow_pos_nonneg; lia).
    split; [nia | lia].
Qed.

Lemma fgets_read_length n : forall s buf rest,
  fgets_read n s = (buf, rest) -> (List.length buf <= n)%nat.
Proof.
  induction n as [|n IH]; intros s buf rest H.
  - cbn in H. injection H as <- <-. cbn. lia.
  - destruct s as [|c s]; cbn [fgets_read] in H.
    + injection H as <- <-. cbn. lia.
    + destruct (Ascii.eqb c newline).
      * injection H as <- <-. cbn. lia.
      * destruct (fgets_read n s) as [b r] eqn:E. injection H as <- <-.
        apply IH in E. cbn [List.length]. lia.
Qed.

Lemma store_nul_length input : forall k,
  List.length (store_nul input k) = List.length input.
Proof.
  induction input as [|c input IH]; intros [|k]; cbn [store_nul List.length];
    try reflexivity. now rewrite IH.
Qed.

Lemma validate_input_length input :
  List.length (snd (validate_input input)) = List.length input.
Proof.
  unfold validate_input. destruct (input_overflow_check input); [reflexivity|].
  destruct (is_nul _); [apply store_nul_length|].
  destruct (_ && _); apply store_nul_length.
Qed.

Lemma strtol_short nptr :
  (List.length nptr <= 18)%nat -> snd (strtol nptr) = false.
Proof.
  intros Hlen. unfold strtol.
  set (after_space := skipn (skip_spaces nptr) nptr).
  assert (Ha : (List.length after_space <= 18)%nat).
  { unfold after_space. rewrite length_skipn. lia. }
  destruct (match after_space with
            | [] => (false, 0%nat)
            | c :: _ =>
                if Ascii.eqb c "-" then (true, 1%nat)
                else if Ascii.eqb c "+" then (false, 1%nat) else (false, 0%nat)
            end) as [negative j].
  destruct (read_digits (skipn j after_space) 0) as [magnitude k] eqn:E.
  apply read_digits_bound in E as [[Hlo Hhi] Hk]; [|lia].
  rewrite length_skipn in Hk.
  destruct k as [|k']; [reflexivity|].
  assert (Hp : 10 ^ Z.of_nat (S k') <= 10 ^ 18).
  { apply Z.pow_le_mono_r; lia. }
  assert (H18 : 10 ^ 18 < 2 ^ 63 - 1) by (vm_compute; reflexivity).
  assert (Hv : - (10 ^ 18) < (if negative then - magnitude else magnitude) < 10 ^ 18)
    by (destruct negative; lia).
  unfold LONG_MAX, LONG_MIN.
  destruct (Z.gtb_spec (if negative then - magnitude else magnitude) (2 ^ 63 - 1));
    [lia|].
  destruct (Z.ltb_spec (if negative then - magnitude else magnitude) (- 2 ^ 63));
    [lia | reflexivity].
Qed.

(** * Further results *)

(** X1: two strings that [validate_roman] accepts and [roman_converter]
    evaluates to the same integer are the same string. *)
Theorem accepted_value_unique s1 s2 :
  validate_roman s1 = true -> validate_roman s2 = true ->
  roman_converter s1 = roman_converter s2 ->
  c_str s1 = c_str s2.
Proof.
  intros H1 H2 Hv.
  rewrite <- validate_roman_c_str in H1, H2.
  rewrite <- (roman_converter_c_str s1), <- (roman_converter_c_str s2) in Hv.
  pose proof (c_str_no_nul s1) as N1. pose proof (c_str_no_nul s2) as N2.
  destruct (c_str s1) as [|a1 t1] eqn:E1; destruct (c_str s2) as [|a2 t2] eqn:E2.
  - reflexivity.
  - destruct (validate_roman_canonical _ N2 ltac:(discriminate) H2) as [Hc _].
    apply canonical_spec in Hc as [Hr _]. rewrite <- Hv in Hr.
    cbn in Hr. unfold ROMAN_MIN in Hr. lia.
  - destruct (validate_roman_canonical _ N1 ltac:(discriminate) H1) as [Hc _].
    apply canonical_spec in Hc as [Hr _]. rewrite Hv in Hr.
    cbn in Hr. unfold ROMAN_MIN in Hr. lia.
  - destruct (validate_roman_canonical _ N1 ltac:(discriminate) H1) as [Hc1 _].
    destruct (validate_roman_canonical _ N2 ltac:(discriminate) H2) as [Hc2 _].
    apply canonical_spec in Hc1 as [_ Hc1]. apply canonical_spec in Hc2 as [_ Hc2].
    congruence.
Qed.

Lemma accepted_value_unique_witness :
  validate_roman (lit "XIV") = true /\
  validate_roman (lit "XIV" ++ NUL :: lit "junk") = true /\
  roman_converter (lit "XIV") = roman_converter (lit "XIV" ++ NUL :: lit "junk") /\
  c_str (lit "XIV") = c_str (lit "XIV" ++ NUL :: lit "junk").
Proof.
  split; [reflexivity|]. split; [reflexivity|]. split; [reflexivity|].
  apply accepted_value_unique; reflexivity.
Defined.

(** X2: every prefix of a string that [validate_roman] accepts is accepted
    as well. *)
Theorem validate_roman_prefix_closed p q :
  validate_roman (p ++ q) = true -> validate_roman p = true.
Proof. apply validate_roman_prefix_any. Qed.

Lemma validate_roman_prefix_closed_witness :
  validate_roman (lit "MCM" ++ lit "XCIV") = true /\ validate_roman (lit "MCM") = true.
Proof.
  split; [reflexivity|].
  apply (validate_roman_prefix_closed (lit "MCM") (lit "XCIV")). reflexivity.
Defined.

(** X3: a string that [validate_roman] accepts consists of the symbols
    I, V, X, L, C, D, M only; any other character makes it return false. *)
Theorem validate_roman_only_symbols s :
  (validate_roman s = true -> Forall roman_symbol (c_str s)) /\
  (forall c, In c (c_str s) -> ~ roman_symbol c -> validate_roman s = false).
Proof.
  split; [apply validate_roman_symbols|].
  intros c Hc Hnot. destruct (validate_roman s) eqn:H; [|reflexivity].
  apply validate_roman_symbols in H. rewrite Forall_forall in H. now elim Hnot; apply H.
Qed.

Lemma validate_roman_only_symbols_witness :
  (validate_roman (lit "XLII") = true /\ Forall roman_symbol (c_str (lit "XLII"))) /\
  (In "x"%char (c_str (lit "Mxi")) /\ ~ roman_symbol "x"%char /\
   validate_roman (lit "Mxi") = false).
Proof.
  assert (Hin : In "x"%char (c_str (lit "Mxi"))) by (right; left; reflexivity).
  assert (Hnot : ~ roman_symbol "x"%char).
  { unfold roman_symbol, alphabet. cbn.
    intros H; repeat (destruct H as [H|H]; [discriminate H|]); exact H. }
  split.
  - split; [reflexivity|].
    apply (proj1 (validate_roman_only_symbols (lit "XLII"))). reflexivity.
  - split; [exact Hin|]. split; [exact Hnot|].
    apply (proj2 (validate_roman_only_symbols (lit "Mxi")) "x"%char Hin Hnot).
Defined.

(** X4: on a string of at most 2147483 characters, valid or not, every
    running total of [roman_converter] lies within the range of [int], so
    that the C sum is the one computed here, and the value returned lies
    between 0 and 1000 times the length of the string. *)
Theorem roman_converter_bounds s :
  Z.of_nat (strlen s) <= 2147483 ->
  (forall k, (k <= strlen s)%nat ->
     INT_MIN <= roman_converter_loop k s 0 0 <= INT_MAX) /\
  0 <= roman_converter s <= 1000 * Z.of_nat (strlen s).
Proof.
  intros Hlen. split.
  - intros k Hk. pose proof (roman_converter_loop_bound s k 0 0) as H.
    unfold INT_MIN, INT_MAX. lia.
  - split; [apply roman_converter_nonneg | apply roman_converter_bound].
Qed.

Lemma roman_converter_bounds_witness :
  Z.of_nat (strlen (lit "CDXLIVIIII")) <= 2147483 /\
  (forall k, (k <= strlen (lit "CDXLIVIIII"))%nat ->
     INT_MIN <= roman_converter_loop k (lit "CDXLIVIIII") 0 0 <= INT_MAX) /\
  0 <= roman_converter (lit "CDXLIVIIII")
    <= 1000 * Z.of_nat (strlen (lit "CDXLIVIIII")).
Proof.
  assert (H : Z.of_nat (strlen (lit "CDXLIVIIII")) <= 2147483) by (cbn; lia).
  split; [exact H|]. apply (roman_converter_bounds (lit "CDXLIVIIII") H).
Defined.

(** X5: in a string that [validate_roman] accepts, a symbol followed by a
    symbol of greater value forms one of the pairs IV, IX, XL, XC, CD, CM. *)
Theorem validate_roman_ascending_pairs s i :
  validate_roman s = true -> (S i < strlen s)%nat ->
  roman_value (char_at s i) < roman_value (char_at s (S i)) ->
  In [char_at s i; char_at s (S i)]
     (map lit ["IV"; "IX"; "XL"; "XC"; "CD"; "CM"]%string).
Proof.
  intros H Hi Hlt. unfold validate_roman in H.
  destruct (validate_loop_bodies s _ _ _ H (S i)) as (st & st' & Hb); [lia|].
  apply valid_subtractive_pair. eapply validate_body_ascending; eassumption.
Qed.

Lemma validate_roman_ascending_pairs_witness :
  validate_roman (lit "MCDXLIV") = true /\ (S 1 < strlen (lit "MCDXLIV"))%nat /\
  roman_value (char_at (lit "MCDXLIV") 1) < roman_value (char_at (lit "MCDXLIV") 2) /\
  In [char_at (lit "MCDXLIV") 1; char_at (lit "MCDXLIV") 2]
     (map lit ["IV"; "IX"; "XL"; "XC"; "CD"; "CM"]%string).
Proof.
  split; [reflexivity|]. split; [vm_compute; lia|]. split; [reflexivity|].
  apply validate_roman_ascending_pairs; [reflexivity | vm_compute; lia | reflexivity].
Defined.

(** X6: a string that [validate_roman] accepts never holds the same
    character four times in a row. *)
Theorem validate_roman_no_run_of_four s p c q :
  validate_roman s = true -> c_str s <> p ++ [c; c; c; c] ++ q.
Proof.
  intros H E. rewrite <- validate_roman_c_str in H.
  assert (Hne : c_str s <> []) by (rewrite E; destruct p; discriminate).
  destruct (validate_roman_canonical _ (c_str_no_nul s) Hne H) as [Hc _].
  apply canonical_spec in Hc as [Hr Hc].
  pose proof no_run4_checked as Hall. rewrite forallb_forall in Hall.
  specialize (Hall _ (in_range _ Hr)). unfold no_run4 in Hall.
  rewrite Hc, E, run4_app in Hall. discriminate.
Qed.

Lemma validate_roman_no_run_of_four_witness :
  validate_roman (lit "XXXIX") = true /\
  c_str (lit "XXXIX") <> lit "V" ++ lit "IIII" ++ [].
Proof.
  split; [reflexivity|].
  apply (validate_roman_no_run_of_four (lit "XXXIX") (lit "V") "I"%char []).
  reflexivity.
Defined.

(** X7: [int_converter] returns the empty string exactly for the integers
    that are zero or negative. *)
Theorem int_converter_empty_iff n : int_converter n = Some [] <-> n <= 0.
Proof.
  split; [apply int_converter_empty | apply int_converter_nonpositive].
Qed.

(** X8: for every [n] up to 8887 the numeral built by [int_converter] and
    its terminator fit the [MAX_ROMAN_LENGTH] bytes allocated; the numeral
    of 8888 has [MAX_ROMAN_LENGTH] symbols and does not. *)
Theorem int_converter_buffer :
  (forall n, n <= 8887 ->
     exists r, int_converter n = Some r /\
               Z.of_nat (List.length r) < MAX_ROMAN_LENGTH) /\
  (exists r, int_converter 8888 = Some r /\
             Z.of_nat (List.length r) = MAX_ROMAN_LENGTH).
Proof.
  split.
  - intros n Hn. destruct (Z.le_gt_cases n 0) as [H0|H0].
    + exists []. split; [now apply int_converter_nonpositive | reflexivity].
    + destruct (int_converter_split n) as (r' & Hr' & Hr); [lia|].
      pose proof (Z.mod_pos_bound n 1000 ltac:(lia)) as Hm.
      destruct (short_numeral_spec _ _ Hm Hr') as [H12 H11].
      eexists. split; [exact Hr|].
      rewrite length_app, repeat_length. unfold MAX_ROMAN_LENGTH.
      pose proof (Z.div_mod n 1000 ltac:(lia)) as Hdm.
      destruct (Z.eq_dec (n mod 1000) 888) as [E|E]; [lia|].
      specialize (H11 E). lia.
  - eexists. split; [vm_compute; reflexivity | reflexivity].
Qed.

Lemma int_converter_buffer_witness :
  7888 <= 8887 /\
  exists r, int_converter 7888 = Some r /\ Z.of_nat (List.length r) < MAX_ROMAN_LENGTH.
Proof.
  split; [lia|]. apply (proj1 int_converter_buffer 7888). lia.
Defined.

(** X9: given a buffer that holds a line of text and its newline,
    [validate_input] replaces the newline by the terminator and answers
    [EXIT_EMPTY_ERR] for an empty line, [EXIT_PROGRAM] for the single
    letter Q or q, and [EXIT_OK] for any other line. *)
Theorem validate_input_on_line l rest :
  line_text l ->
  c_str (snd (validate_input (l ++ newline :: rest))) = l /\
  fst (validate_input (l ++ newline :: rest)) =
    match l with
    | [] => EXIT_EMPTY_ERR
    | [c] => if Ascii.eqb c "Q" || Ascii.eqb c "q" then EXIT_PROGRAM else EXIT_OK
    | _ :: _ :: _ => EXIT_OK
    end.
Proof.
  intros Hl. rewrite (validate_input_line l rest Hl). cbn [fst snd]. split.
  - rewrite c_str_app_nul. now apply c_str_of_no_nul, line_text_no_nul.
  - destruct l as [|c [|c' l']]; try reflexivity.
    replace (Ascii.eqb (toupper c) "Q") with (Ascii.eqb c "Q" || Ascii.eqb c "q");
      [reflexivity|].
    destruct c as [[] [] [] [] [] [] [] []]; reflexivity.
Qed.

Lemma validate_input_on_line_witness :
  line_text (lit "q") /\
  c_str (snd (validate_input (lit "q" ++ newline :: lit "IV"))) = lit "q" /\
  fst (validate_input (lit "q" ++ newline :: lit "IV")) = EXIT_PROGRAM.
Proof.
  assert (Hl : line_text (lit "q")).
  { repeat constructor; discriminate. }
  split; [exact Hl|]. apply (validate_input_on_line (lit "q") (lit "IV") Hl).
Defined.

(** X10: a buffer whose string holds no newline is answered with
    [EXIT_INVALID_INPUT] and left as it is, and the rest of the line is
    read away from [stdin], newline included. *)
Theorem validate_input_overflow_drains input a b out :
  ~ In newline (c_str input) ->
  Forall (fun c => c <> newline) a ->
  validate_input_io input (mk_world (a ++ newline :: b) out) =
  (EXIT_INVALID_INPUT, input, mk_world b out).
Proof.
  intros Hin Ha. apply input_overflow_check_spec in Hin.
  unfold validate_input_io. rewrite Hin, (validate_input_overflow _ Hin).
  cbn [stdin output]. now rewrite drain_line_newline.
Qed.

Lemma validate_input_overflow_drains_witness :
  ~ In newline (c_str (lit "123456789")) /\
  Forall (fun c => c <> newline) (lit "0") /\
  validate_input_io (lit "123456789") (mk_world (lit "0" ++ newline :: lit "II") []) =
  (EXIT_INVALID_INPUT, lit "123456789", mk_world (lit "II") []).
Proof.
  assert (H1 : ~ In newline (c_str (lit "123456789"))).
  { cbn. intros H; repeat (destruct H as [H|H]; [discriminate H|]); exact H. }
  assert (H2 : Forall (fun c => c <> newline) (lit "0")).
  { repeat constructor; discriminate. }
  split; [exact H1|]. split; [exact H2|].
  apply (validate_input_overflow_drains _ _ _ _ H1 H2).
Defined.

(** X11: [roman_to_int] returns [EXIT_OK] exactly when the next line of
    [stdin] spells, in upper or lower case, the numeral of an integer [n]
    between 1 and 3999; it then has read that line and printed [n] after
    its prompt. *)
Theorem roman_to_int_success_iff use_regex w w' :
  roman_to_int use_regex w = (EXIT_OK, w') <->
  exists l n,
    stdin w = l ++ newline :: stdin w' /\
    1 <= n <= 3999 /\ int_converter n = Some (map toupper l) /\
    output w' = output w ++ [Out_prompt_roman; Out_int n].
Proof.
  split.
  - intros H. apply roman_to_int_ok_inv in H as (l & Hs & Hne & Hn & Hv & Ho).
    assert (Hne' : map toupper l <> []) by (destruct l; [now elim Hne | discriminate]).
    destruct (validate_roman_canonical _ Hn Hne' Hv) as [Hc _].
    apply canonical_spec in Hc as [Hr Hc].
    exists l, (roman_converter (map toupper l)). auto.
  - intros (l & n & Hs & Hn & Hc & Ho).
    destruct (numeral_facts n _ Hn Hc) as (Hne & _ & Hsym & Hv & Hrt).
    destruct w as [sin out], w' as [sin' out']. cbn [stdin output] in *. subst sin out'.
    rewrite roman_to_int_numeral; [now rewrite Hrt | | exact Hv | exact Hsym].
    intros ->. now elim Hne.
Qed.

Lemma roman_to_int_success_iff_witness :
  roman_to_int false (mk_world (lit "mcmxciv" ++ newline :: lit "Q") []) =
  (EXIT_OK, mk_world (lit "Q") [Out_prompt_roman; Out_int 1994]).
Proof.
  apply (proj2 (roman_to_int_success_iff false _ _)).
  exists (lit "mcmxciv"), 1994. cbn [stdin output app].
  split; [reflexivity|]. split; [lia|]. split; reflexivity.
Defined.

(** X12: a line of 19 characters or more is too long for [roman_to_int]:
    it answers [EXIT_INVALID_INPUT] and the whole line is gone from
    [stdin]. *)
Theorem roman_to_int_long_line_discarded use_regex l rest out :
  line_text l -> (19 <= List.length l)%nat ->
  roman_to_int use_regex (mk_world (l ++ newline :: rest) out) =
  (EXIT_INVALID_INPUT, mk_world rest (out ++ [Out_prompt_roman; Err_invalid_input])).
Proof. apply roman_to_int_long_line. Qed.

Lemma roman_to_int_long_line_discarded_witness :
  line_text (lit "MMMDCCCLXXXVIIIIIII") /\
  (19 <= List.length (lit "MMMDCCCLXXXVIIIIIII"))%nat /\
  roman_to_int true (mk_world (lit "MMMDCCCLXXXVIIIIIII" ++ newline :: lit "IV") []) =
  (EXIT_INVALID_INPUT, mk_world (lit "IV") ([] ++ [Out_prompt_roman; Err_invalid_input])).
Proof.
  assert (Hl : line_text (lit "MMMDCCCLXXXVIIIIIII")).
  { repeat constructor; discriminate. }
  split; [exact Hl|]. split; [cbn; lia|].
  apply (roman_to_int_long_line_discarded true _ (lit "IV") [] Hl). cbn. lia.
Defined.

(** X13: the [-regex] engine changes nothing: [roman_to_int] and the
    whole menu loop behave the same with either validator. *)
Theorem regex_engine_irrelevant fuel test_mode w :
  roman_to_int true w = roman_to_int false w /\
  main_loop fuel test_mode true w = main_loop fuel test_mode false w.
Proof. split; [apply roman_to_int_engine | apply main_loop_engine]. Qed.

(** X14: whenever [int_to_roman] returns [EXIT_OK] it has printed, after
    its prompt, the numeral of an integer between 1 and 3999, one that
    [validate_roman] accepts and [roman_converter] reads back. *)
Theorem int_to_roman_prints_numeral w w' :
  int_to_roman w = (EXIT_OK, w') ->
  exists n r,
    1 <= n <= 3999 /\ int_converter n = Some r /\
    validate_roman r = true /\ roman_converter r = n /\
    output w' = output w ++ [Out_prompt_int; Out_roman r].
Proof.
  intros H. apply int_to_roman_ok_inv in H as (n & r & Hn & Hr & Ho).
  destruct (numeral_facts n r Hn Hr) as (_ & _ & _ & Hv & Hrt).
  exists n, r. auto.
Qed.

Lemma int_to_roman_prints_numeral_witness :
  int_to_roman (mk_world (lit " +14" ++ newline :: []) []) =
    (EXIT_OK, mk_world [] [Out_prompt_int; Out_roman (lit "XIV")]) /\
  exists n r,
    1 <= n <= 3999 /\ int_converter n = Some r /\
    validate_roman r = true /\ roman_converter r = n /\
    [Out_prompt_int; Out_roman (lit "XIV")] = [] ++ [Out_prompt_int; Out_roman r].
Proof.
  split; [reflexivity|].
  apply (int_to_roman_prints_numeral
           (mk_world (lit " +14" ++ newline :: []) [])
           (mk_world [] [Out_prompt_int; Out_roman (lit "XIV")])).
  reflexivity.
Defined.

(** X15: given a line with the decimal digits of an integer [n] between 1
    and 3999, [int_to_roman] reads the line, prints the numeral that
    [int_converter] builds for [n] and returns [EXIT_OK]. *)
Theorem int_to_roman_decimal_line n rest out :
  1 <= n <= 3999 ->
  exists r,
    int_converter n = Some r /\
    int_to_roman (mk_world (decimal n ++ newline :: rest) out) =
    (EXIT_OK, mk_world rest (out ++ [Out_prompt_int; Out_roman r])).
Proof. apply int_to_roman_decimal. Qed.

Lemma int_to_roman_decimal_line_witness :
  1 <= 2024 <= 3999 /\
  exists r,
    int_converter 2024 = Some r /\
    int_to_roman (mk_world (decimal 2024 ++ newline :: lit "Q") []) =
    (EXIT_OK, mk_world (lit "Q") ([] ++ [Out_prompt_int; Out_roman r])).
Proof.
  split; [lia|]. apply (int_to_roman_decimal_line 2024 (lit "Q") []). lia.
Defined.

(** X16: started with [-test], [main] returns: on an input of [k] bytes
    its menu loop is gone through at most [k + 1] times. *)
Theorem main_test_mode_terminates argv w :
  In (lit "-test") (tl argv) ->
  exists result, main (S (List.length (stdin w))) argv w = Some result.
Proof.
  intros Hin. unfold main.
  assert (Ht : existsb (streq (lit "-test")) (tl argv) = true).
  { apply existsb_exists. exists (lit "-test"). split; [exact Hin | now apply streq_spec]. }
  rewrite Ht. apply main_loop_test_terminates. lia.
Qed.

Lemma main_test_mode_terminates_witness :
  In (lit "-test") (tl [lit "./converter"; lit "-regex"; lit "-test"]) /\
  exists result,
    main (S (List.length (stdin (mk_world (lit "7" ++ newline :: lit "1") []))))
         [lit "./converter"; lit "-regex"; lit "-test"]
         (mk_world (lit "7" ++ newline :: lit "1") []) = Some result.
Proof.
  assert (Hin : In (lit "-test") (tl [lit "./converter"; lit "-regex"; lit "-test"]))
    by (right; left; reflexivity).
  split; [exact Hin|]. apply (main_test_mode_terminates _ _ Hin).
Defined.

(** X17: started without [-test], [main] can only return from its menu:
    its status is [EXIT_PROGRAM] (Q), [EXIT_INPUT_ERR] (end of input),
    [EXIT_EMPTY_ERR] (empty line) or [EXIT_INVALID_INPUT] (line too long),
    and never [EXIT_OK]. *)
Theorem main_interactive_status fuel argv w status w' :
  (forall a, In a (tl argv) -> c_str a <> lit "-test") ->
  main fuel argv w = Some (status, w') ->
  status = EXIT_PROGRAM \/ status = EXIT_INPUT_ERR \/
  status = EXIT_EMPTY_ERR \/ status = EXIT_INVALID_INPUT.
Proof.
  intros Hno. unfold main.
  assert (Ht : existsb (streq (lit "-test")) (tl argv) = false).
  { destruct (existsb _ _) eqn:E; [|reflexivity].
    apply existsb_exists in E as (a & Ha & E). apply streq_spec in E.
    now elim (Hno a Ha). }
  rewrite Ht. apply main_loop_interactive_status.
Qed.

Lemma main_interactive_status_witness :
  (forall a, In a (tl [lit "./converter"]) -> c_str a <> lit "-test") /\
  main 5 [lit "./converter"]
       (mk_world (lit "1" ++ newline :: lit "IX" ++ newline :: lit "q" ++ newline :: [newline]) [])
  = Some (EXIT_EMPTY_ERR,
          mk_world [] [Out_menu; Out_prompt_roman; Out_int 9; Out_prompt_roman;
                       Out_menu; Err_invalid_input]) /\
  (EXIT_EMPTY_ERR = EXIT_PROGRAM \/ EXIT_EMPTY_ERR = EXIT_INPUT_ERR \/
   EXIT_EMPTY_ERR = EXIT_EMPTY_ERR \/ EXIT_EMPTY_ERR = EXIT_INVALID_INPUT).
Proof.
  assert (Hno : forall a, In a (tl [lit "./converter"]) -> c_str a <> lit "-test")
    by (intros a []).
  split; [exact Hno|]. split; [reflexivity|].
  apply (main_interactive_status 5 [lit "./converter"]
           (mk_world (lit "1" ++ newline :: lit "IX" ++ newline :: lit "q" ++ newline :: [newline]) [])
           EXIT_EMPTY_ERR
           (mk_world [] [Out_menu; Out_prompt_roman; Out_int 9; Out_prompt_roman;
                         Out_menu; Err_invalid_input])
           Hno).
  reflexivity.
Defined.

(** X18: without [-test], a conversion loop that meets the end of input
    never stops: no number of iterations brings it, or [main], to a
    return. *)
Theorem conversion_loop_stuck_at_eof fuel use_regex :
  (forall w, stdin w = [] ->
     submenu fuel (roman_to_int use_regex) false w = None /\
     submenu fuel int_to_roman false w = None) /\
  (forall out,
     main_loop fuel false use_regex (mk_world (lit "1" ++ [newline]) out) = None /\
     main_loop fuel false use_regex (mk_world (lit "2" ++ [newline]) out) = None).
Proof.
  split.
  - intros w Hw. split.
    + apply submenu_eof; [apply roman_to_int_eof_step | exact Hw].
    + apply submenu_eof; [apply int_to_roman_eof_step | exact Hw].
  - intros out. destruct fuel as [|fuel]; [split; reflexivity|]. split.
    + rewrite main_loop_choose_1.
      now rewrite (submenu_eof fuel _ (roman_to_int_eof_step use_regex)).
    + rewrite main_loop_choose_2.
      now rewrite (submenu_eof fuel _ int_to_roman_eof_step).
Qed.

Lemma conversion_loop_stuck_at_eof_witness :
  stdin (mk_world [] [Out_menu]) = [] /\
  submenu 1000 (roman_to_int false) false (mk_world [] [Out_menu]) = None.
Proof.
  split; [reflexivity|].
  apply (proj1 (conversion_loop_stuck_at_eof 1000 false) (mk_world [] [Out_menu])).
  reflexivity.
Defined.

(** X19: with [-test], choosing 1 and giving the numeral of [n] in either
    case prints [n], choosing 2 and giving the digits of [n] prints its
    numeral; either way [main] returns [EXIT_OK] after this one
    conversion, with the rest of the input unread. *)
Theorem main_test_mode_converts fuel use_regex n rest out :
  1 <= n <= 3999 ->
  (forall l, int_converter n = Some (map toupper l) ->
     main_loop (S (S fuel)) true use_regex
       (mk_world (lit "1" ++ newline :: l ++ newline :: rest) out) =
     Some (EXIT_OK, mk_world rest (out ++ [Out_prompt_roman; Out_int n]))) /\
  (exists r, int_converter n = Some r /\
     main_loop (S (S fuel)) true use_regex
       (mk_world (lit "2" ++ newline :: decimal n ++ newline :: rest) out) =
     Some (EXIT_OK, mk_world rest (out ++ [Out_prompt_int; Out_roman r]))).
Proof.
  intros Hn. split.
  - intros l Hc. destruct (numeral_facts n _ Hn Hc) as (Hne & _ & Hsym & Hv & Hrt).
    rewrite main_loop_choose_1, submenu_once.
    rewrite roman_to_int_numeral; [now rewrite Hrt | | exact Hv | exact Hsym].
    intros ->. now elim Hne.
  - destruct (int_to_roman_decimal n rest out Hn) as (r & Hr & Hi).
    exists r. split; [exact Hr|].
    now rewrite main_loop_choose_2, submenu_once, Hi.
Qed.

Lemma main_test_mode_converts_witness :
  1 <= 49 <= 3999 /\
  main_loop 2 true false
    (mk_world (lit "1" ++ newline :: lit "xlix" ++ newline :: lit "Q") []) =
  Some (EXIT_OK, mk_world (lit "Q") ([] ++ [Out_prompt_roman; Out_int 49])).
Proof.
  split; [lia|].
  apply (proj1 (main_test_mode_converts 0 false 49 (lit "Q") [] ltac:(lia)) (lit "xlix")).
  reflexivity.
Defined.

(** X20: [strtol] never reports a range error in [int_to_roman]: whatever
    [fgets] puts in the ten-byte buffer, once through [validate_input], is
    too short to overflow a [long], so the test on [errno] never fires. *)
Theorem int_to_roman_strtol_in_range w buf w' :
  fgets MAX_INT_LENGTH w = (Some buf, w') ->
  snd (strtol (snd (validate_input buf))) = false.
Proof.
  unfold fgets. destruct (stdin w) as [|c s]; [discriminate|].
  destruct (fgets_read _ (c :: s)) as [b r] eqn:E. intros [= <- _].
  apply fgets_read_length in E. apply strtol_short.
  rewrite validate_input_length. unfold MAX_INT_LENGTH in E.
  change (Z.to_nat 10) with 10%nat in E. lia.
Qed.

Lemma int_to_roman_strtol_in_range_witness :
  fgets MAX_INT_LENGTH (mk_world (lit "999999999999" ++ [newline]) []) =
    (Some (lit "999999999"), mk_world (lit "999" ++ [newline]) []) /\
  snd (strtol (snd (validate_input (lit "999999999")))) = false.
Proof.
  split; [reflexivity|].
  apply (int_to_roman_strtol_in_range
           (mk_world (lit "999999999999" ++ [newline]) [])
           (lit "999999999")
           (mk_world (lit "999" ++ [newline]) [])).
  reflexivity.
Defined.



(** X22: for every integer [n] from 0 to 8887, the range in which the
    numeral fits the buffer of [int_converter], and so also beyond 3999,
    [roman_converter] reads the string built by [int_converter] back as
    [n]. *)
Theorem int_converter_round_trip_nonneg n :
  0 <= n <= 8887 ->
  exists r, int_converter n = Some r /\ roman_converter r = n.
Proof.
  intros [Hn _]. destruct (int_converter_split n Hn) as (r' & Hr' & Hr).
  eexists. split; [exact Hr|].
  rewrite roman_converter_repeat_M, Z2Nat.id by (apply Z.div_pos; lia).
  pose proof (Z.mod_pos_bound n 1000 ltac:(lia)) as Hm.
  assert (Hv : roman_converter r' = n mod 1000).
  { destruct (Z.eq_dec (n mod 1000) 0) as [E|E].
    - rewrite E in Hr'. rewrite int_converter_nonpositive in Hr' by lia.
      injection Hr' as <-. now rewrite E.
    - destruct (int_converter_round_trip (n mod 1000)) as (r2 & Hr2 & _ & Hrt & _);
        [unfold ROMAN_MIN, ROMAN_MAX; lia|]. congruence. }
  rewrite Hv. symmetry. apply Z.div_mod. lia.
Qed.

Lemma int_converter_round_trip_nonneg_witness :
  0 <= 4888 <= 8887 /\
  exists r, int_converter 4888 = Some r /\ roman_converter r = 4888.
Proof.
  split; [lia|]. apply (int_converter_round_trip_nonneg 4888). lia.
Defined.

(** X23: for every [int] [n] up to 8887, the range in which the numeral
    fits the buffer of [int_converter], [validate_roman] accepts the
    string built for [n] exactly when [n <= 3999]: the numerals of
    1 .. 3999, the empty string built for [n <= 0], and nothing from 4000
    to 8887. *)
Theorem int_converter_valid_iff n :
  INT_MIN <= n <= 8887 ->
  exists r, int_converter n = Some r /\ (validate_roman r = true <-> n <= 3999).
Proof.
  intros _. destruct (Z.le_gt_cases n 0) as [H0|H0].
  - exists []. split; [now apply int_converter_nonpositive|].
    split; [lia | reflexivity].
  - destruct (Z.le_gt_cases n 3999) as [Hle|Hgt].
    + destruct (int_converter_round_trip n) as (r & Hr & Hv & _);
        [unfold ROMAN_MIN, ROMAN_MAX; lia|].
      exists r. split; [exact Hr|]. split; auto.
    + destruct (int_converter_split n) as (r' & _ & Hr); [lia|].
      eexists. split; [exact Hr|]. split; [|lia].
      intros Hv. exfalso.
      assert (Hq : 4 <= n / 1000).
      { pose proof (Z.div_mod n 1000 ltac:(lia)).
        pose proof (Z.mod_pos_bound n 1000 ltac:(lia)). lia. }
      replace (Z.to_nat (n / 1000)) with (4 + Z.to_nat (n / 1000 - 4))%nat in Hv by lia.
      rewrite repeat_app, <- app_assoc in Hv.
      apply validate_roman_prefix_any in Hv. discriminate Hv.
Qed.

Lemma int_converter_valid_iff_witness :
  INT_MIN <= 4000 <= 8887 /\
  exists r, int_converter 4000 = Some r /\ (validate_roman r = true <-> 4000 <= 3999).
Proof.
  assert (H : INT_MIN <= 4000 <= 8887) by (unfold INT_MIN; lia).
  split; [exact H|]. apply (int_converter_valid_iff 4000 H).
Defined.
